(** * Fragility-curve reliability model: a verification development

    The program under study is [reliability_model3_draft_18Mar2020.py], a batch
    script that derives, for every structure of a transmission line, five
    reduction factors, a design-life adjustment, an adjusted design life, a
    coefficient of variation, a strength ratio and a design ratio per Pronto
    theme, then a capacity distribution per theme and a probability of failure
    per wind speed.

    Conventions of the embedding.
    - Python floats are read as real numbers ([R]); a missing number (NaN) in
      a condition-code column is [None].  Division is the division of [R], so
      a statement about a quotient is only meant where its divisor is not
      zero; the IEEE behaviour at a zero divisor is studied apart, on binary64
      floats, in [Module Float64].
    - A Python exception is a value of [Py.result]; the classification
      lookups of the main loop are written in that monad.
    - The module [parameters] is not part of the sources: its constants
      ([r_spl], [r_cor], [mu_steel], [mu_wood], the per-theme constant
      columns) are variables of the sections below.
    - [scipy.stats.lognorm.cdf] is an external function: it is a section
      variable, with the laws of a distribution function as hypotheses where
      a statement needs them. *)

From Stdlib Require Import Reals Lra Lia ZArith Bool List String.
From Stdlib Require Floats.
Import PrimFloat.PrimFloatNotations.
Import ListNotations.

Local Open Scope string_scope.
Local Open Scope R_scope.

(* ================================================================== *)
(** ** Python values, exceptions and the builtins the script calls    *)
(* ================================================================== *)

Module Py.

Inductive exn : Set := KeyError | TypeError | ValueError.

Inductive result (A : Type) : Type :=
| Return (a : A)
| Raise (e : exn).
Arguments Return {A} a.
Arguments Raise {A} e.

Definition bind {A B : Type} (m : result A) (k : A -> result B) : result B :=
  match m with
  | Return a => k a
  | Raise e => Raise e
  end.

Definition raises {A : Type} (m : result A) : Prop :=
  match m with
  | Return _ => False
  | Raise _ => True
  end.

(** The objects stored in the score table: Python ints and strs. *)
Inductive obj : Set :=
| int (z : Z)
| str (s : string).

(** [a > b].  Ordering an int against a str raises [TypeError]. *)
Definition gt (a b : obj) : result bool :=
  match a, b with
  | int x, int y => Return (y <? x)%Z
  | str x, str y => Return (String.ltb y x)
  | _, _ => Raise TypeError
  end.

(** The builtin [max(a, b)]: the first argument is kept unless the second
    one is strictly greater. *)
Definition max (a b : obj) : result obj :=
  bind (gt b a) (fun g => Return (if g then b else a)).

(** The builtin [float(o)].  An int converts; a str is parsed, and a str
    that is not a numeral raises [ValueError].  The strs this development
    meets are all the marker of the score table, which is no numeral
    (lemma [table_strs_are_marker] below), so the parse is not modelled. *)
Definition float (o : obj) : result R :=
  match o with
  | int z => Return (IZR z)
  | str _ => Raise ValueError
  end.

(** [math.isnan] on a real number. *)
Definition isnan (x : R) : bool := false.

End Py.

Notation "x <- m ;; k" := (Py.bind m (fun x => k))
  (at level 61, m at next level, right associativity).

(* ================================================================== *)
(** ** The MCE corrosion score table (lines 270-344)                  *)
(* ================================================================== *)

Module MCE.

Record row : Set := mk_row {
  ROW_LABELS : string;
  SNOWLOAD : Py.obj;
  WETLAND_TYPE : Py.obj;
  AGRICULTURE : Py.obj;
  ATMOSPHERIC_CORROSION : Py.obj;
  WIND_SPEED : Py.obj;
  SOILS_RESISTIVITY : Py.obj
}.

Definition marker : string := "ERROR_MCE_N/A".

Local Abbreviation NA := (Py.str marker).
Local Abbreviation I n := (Py.int n%Z).

Definition df_MCE_corrosion_scores : list row :=
  [
    mk_row "heavy" (I 2) NA NA NA NA NA;
    mk_row "intermediate" (I 1) NA NA NA NA NA;
    mk_row "light" (I 0) NA NA NA NA NA;
    mk_row "Estuarine and Marine Deepwater" NA (I 2) NA NA NA NA;
    mk_row "Estuarine and Marine Wetland" NA (I 2) NA NA NA NA;
    mk_row "Freshwater Emergent Wetland" NA (I 1) NA NA NA NA;
    mk_row "Freshwater Forested/Shrub Wetland" NA (I 1) NA NA NA NA;
    mk_row "Freshwater Pond" NA (I 1) NA NA NA NA;
    mk_row "Lake" NA (I 1) NA NA NA NA;
    mk_row "Riverine" NA (I 1) NA NA NA NA;
    mk_row "other" NA (I 1) NA NA NA NA;
    mk_row "Blank" NA (I 0) NA NA NA NA;
    mk_row "None" NA (I 0) NA (I 0) NA NA;
    mk_row "Farmland of Local Importance" NA NA (I 2) NA NA NA;
    mk_row "Farmland of Statewide Importance" NA NA (I 2) NA NA NA;
    mk_row "Grazing Land" NA NA (I 1) NA NA NA;
    mk_row "Irrigated Farmland (interim)" NA NA (I 2) NA NA NA;
    mk_row "Local Potential" NA NA (I 1) NA NA NA;
    mk_row "Nonagricultural and Natural Vegetation" NA NA (I 1) NA NA NA;
    mk_row "Not Mapped" NA NA (I 1) NA NA NA;
    mk_row "Other Land" NA NA (I 1) NA NA NA;
    mk_row "Prime Farmland" NA NA (I 2) NA NA NA;
    mk_row "Rural Residential and Rural Commercial" NA NA (I 2) NA NA NA;
    mk_row "Unique Farmland" NA NA (I 1) NA NA NA;
    mk_row "Urban and Built-up Land" NA NA (I 0) NA NA NA;
    mk_row "Water" NA NA (I 2) NA NA NA;
    mk_row "Confined Animal Agriculture" NA NA (I 2) NA NA NA;
    mk_row "moderate" NA NA NA (I 1) NA NA;
    mk_row "severe" NA NA NA (I 2) NA NA;
    mk_row "Lower 1/3 of PG&E wind speed" NA NA NA NA (I 0) NA;
    mk_row "Middle 1/3 of PG&E wind speed" NA NA NA NA (I 1) NA;
    mk_row "Top 1/3 of PG&E wind speed" NA NA NA NA (I 2) NA;
    mk_row "High" NA NA NA NA NA (I 0);
    mk_row "Med" NA NA NA NA NA (I 1);
    mk_row "Low" NA NA NA NA NA (I 2);
    mk_row "Vacant or Disturbed Land" NA NA (I 0) NA NA NA;
    mk_row "Rural Residential Land" NA NA (I 0) NA NA NA;
    mk_row "Farmland of Local Potential" NA NA (I 0) NA NA NA;
    mk_row "Semi-agricultural and Rural Commercial Land" NA NA (I 0) NA NA NA;
    mk_row "Water Area" NA NA (I 0) NA NA NA
  ].

(** [df_MCE_corrosion_scores_indexed.loc[label, column]]: the labels are
    pairwise distinct, so the lookup yields the cell of the one row that
    carries the label, and raises [KeyError] when no row does. *)
Definition loc (label : string) (column : row -> Py.obj) : Py.result Py.obj :=
  match find (fun r => String.eqb (ROW_LABELS r) label) df_MCE_corrosion_scores with
  | Some r => Py.Return (column r)
  | None => Py.Raise Py.KeyError
  end.

End MCE.

(* ================================================================== *)
(** ** The input table [df0] and the per-structure records            *)
(* ================================================================== *)

(** One row of [df0], with the columns the calculations read.  [CD entry]
    is [df0.loc[p, entry]] for a condition-code column ([ANCHOR_CD],
    [GUY_CD], ...); [None] stands for NaN, the value pandas gives a missing
    code. *)
Record asset : Type := mk_asset {
  MATERIAL_FLAG : string;
  INSTALLED_YEAR : R;
  WEAR_FATIGUE_RED_FAC : R;
  AGRICULTURE : string;
  WETLAND_TYPE : string;
  CORROSION_ZONE : string;
  SPLICES : R;
  OUTAGE_DESIGNLIFE_MOD : R;
  CD : string -> option R
}.

(** The five structure-dependent reduction factors (lines 409-437). *)
Record factors : Type := mk_factors {
  outage_density_red_factor : R;
  splice_density_red_factor : R;
  wear_fatigue_red_factor : R;
  soil_corrosivity_red_factor : R;
  atmospheric_corrosivity_red_factor : R
}.

(** What one pass of the inner loop appends for a structure and a theme. *)
Record derived : Type := mk_derived {
  design_life_adjustment : R;
  design_life_adjusted : R;
  cov : R;
  strength_ratio : R;
  design_ratio : R
}.

Definition triple_adjustment (t : R * R * R) : R := fst (fst t).
Definition triple_adjusted (t : R * R * R) : R := snd (fst t).
Definition triple_cov (t : R * R * R) : R := snd t.

(* ================================================================== *)
(** ** Design-life functions (lines 84-229)                           *)
(* ================================================================== *)

Section DesignLife.

(** [df_reliability_calcs_constants.loc[i, theme]]: row 0 is the cov at age
    zero, row 1 the cov at the design life, row 2 the design life. *)
Variable df_reliability_calcs_constants : nat -> string -> R.

Definition DLife_WoodSteel_Conductor (AGE_YEARS : R) (pronto : string)
  (outage wear_fatigue splice_density atmospheric : R) : R * R * R :=
  let design_life_adjustment :=
    if Rlt_dec outage 0
    then (1 - sqrt (wear_fatigue ^ 2 + splice_density ^ 2 + atmospheric ^ 2)) * (1 - outage)
    else 1 - sqrt (wear_fatigue ^ 2 + splice_density ^ 2 + atmospheric ^ 2 + outage ^ 2) in
  let design_life_adjusted :=
    df_reliability_calcs_constants 2%nat pronto * design_life_adjustment in
  let cov :=
    df_reliability_calcs_constants 0%nat pronto
    + (df_reliability_calcs_constants 1%nat pronto - df_reliability_calcs_constants 0%nat pronto)
      * (AGE_YEARS ^ 2 / design_life_adjusted ^ 2) in
  (design_life_adjustment, design_life_adjusted, cov).

Definition DLife_WoodSteel_Anchor (AGE_YEARS : R) (entry : string)
  (outage soil : R) : R * R * R :=
  let design_life_adjustment :=
    if Rlt_dec outage 0
    then (1 - soil) * (1 - outage)
    else 1 - sqrt (soil ^ 2 + outage ^ 2) in
  let design_life_adjusted :=
    df_reliability_calcs_constants 2%nat entry * design_life_adjustment in
  let cov :=
    df_reliability_calcs_constants 0%nat entry
    + (df_reliability_calcs_constants 1%nat entry - df_reliability_calcs_constants 0%nat entry)
      * (AGE_YEARS ^ 2 / design_life_adjusted ^ 2) in
  (design_life_adjustment, design_life_adjusted, cov).

Definition DLife_WoodSteel_Guy (AGE_YEARS : R) (entry : string)
  (outage atmospheric : R) : R * R * R :=
  let design_life_adjustment :=
    if Rlt_dec outage 0
    then (1 - atmospheric) * (1 - outage)
    else 1 - sqrt (atmospheric ^ 2 + outage ^ 2) in
  let design_life_adjusted :=
    df_reliability_calcs_constants 2%nat entry * design_life_adjustment in
  let cov :=
    df_reliability_calcs_constants 0%nat entry
    + (df_reliability_calcs_constants 1%nat entry - df_reliability_calcs_constants 0%nat entry)
      * (AGE_YEARS ^ 2 / design_life_adjusted ^ 2) in
  (design_life_adjustment, design_life_adjusted, cov).

(** Lines 154-157: in the first branch the product binds tighter than the
    subtraction, so [(1 - outage)] multiplies the square root only. *)
Definition DLife_WoodSteel_OGW (AGE_YEARS : R) (entry : string)
  (outage atmospheric soil : R) : R * R * R :=
  let design_life_adjustment :=
    if Rlt_dec outage 0
    then 1 - sqrt (soil ^ 2 + atmospheric ^ 2) * (1 - outage)
    else 1 - sqrt (soil ^ 2 + atmospheric ^ 2 + outage ^ 2) in
  let design_life_adjusted :=
    df_reliability_calcs_constants 2%nat entry * design_life_adjustment in
  let cov :=
    df_reliability_calcs_constants 0%nat entry
    + (df_reliability_calcs_constants 1%nat entry - df_reliability_calcs_constants 0%nat entry)
      * (AGE_YEARS ^ 2 / design_life_adjusted ^ 2) in
  (design_life_adjustment, design_life_adjusted, cov).

(** Lines 175-178: the same expression as for OGW. *)
Definition DLife_WoodSteel_HI (AGE_YEARS : R) (entry : string)
  (outage atmospheric soil : R) : R * R * R :=
  let design_life_adjustment :=
    if Rlt_dec outage 0
    then 1 - sqrt (soil ^ 2 + atmospheric ^ 2) * (1 - outage)
    else 1 - sqrt (soil ^ 2 + atmospheric ^ 2 + outage ^ 2) in
  let design_life_adjusted :=
    df_reliability_calcs_constants 2%nat entry * design_life_adjustment in
  let cov :=
    df_reliability_calcs_constants 0%nat entry
    + (df_reliability_calcs_constants 1%nat entry - df_reliability_calcs_constants 0%nat entry)
      * (AGE_YEARS ^ 2 / design_life_adjusted ^ 2) in
  (design_life_adjustment, design_life_adjusted, cov).

Definition DLife_WoodSteel_StructureFoundation (AGE_YEARS : R) (entry : string)
  (outage atmospheric wear_fatigue soil : R) : R * R * R :=
  let design_life_adjustment :=
    if Rlt_dec outage 0
    then (1 - sqrt (wear_fatigue ^ 2 + soil ^ 2 + atmospheric ^ 2)) * (1 - outage)
    else 1 - sqrt (wear_fatigue ^ 2 + soil ^ 2 + atmospheric ^ 2 + outage ^ 2) in
  let design_life_adjusted :=
    df_reliability_calcs_constants 2%nat entry * design_life_adjustment in
  let cov :=
    df_reliability_calcs_constants 0%nat entry
    + (df_reliability_calcs_constants 1%nat entry - df_reliability_calcs_constants 0%nat entry)
      * (AGE_YEARS ^ 2 / design_life_adjusted ^ 2) in
  (design_life_adjustment, design_life_adjusted, cov).

Definition DLife_WoodSteel_AllOthers (AGE_YEARS : R) (entry : string)
  (outage atmospheric wear_fatigue : R) : R * R * R :=
  let design_life_adjustment :=
    if Rlt_dec outage 0
    then (1 - sqrt (wear_fatigue ^ 2 + atmospheric ^ 2)) * (1 - outage)
    else 1 - sqrt (wear_fatigue ^ 2 + atmospheric ^ 2 + outage ^ 2) in
  let design_life_adjusted :=
    df_reliability_calcs_constants 2%nat entry * design_life_adjustment in
  let cov :=
    df_reliability_calcs_constants 0%nat entry
    + (df_reliability_calcs_constants 1%nat entry - df_reliability_calcs_constants 0%nat entry)
      * (AGE_YEARS ^ 2 / design_life_adjusted ^ 2) in
  (design_life_adjustment, design_life_adjusted, cov).

End DesignLife.

(* ================================================================== *)
(** ** The main loop (lines 379-748)                                  *)
(* ================================================================== *)

(** Lines 539-544 (repeated at 639-644 and 729-734): the strength ratio of a
    condition code [c = df0.loc[p, entry]]. *)
Definition strength_ratio_of_code (c : option R) : R :=
  match c with
  | None => 1
  | Some x =>
      if Req_dec_T x 0 then 1
      else if Req_dec_T x 2 then 92 / 100
      else 1 - ((x - 1) / 6)
  end.

(** Lines 563-570: the theme a WOOD structure reads in place of [entry]. *)
Definition entry_wood (entry : string) : string :=
  if String.eqb entry "FOUNDATION_CD" then "STRUCTURE_CD"
  else if String.eqb entry "STRUCT_ATTACH_CD" then "FRAME_ATTACH_CD"
  else if String.eqb entry "STUB_SPLICE_CD" then "CROSSARMS_CD"
  else entry.

Section MainLoop.

Variables r_spl r_cor : R.
Variable now_year : R.
Variable df_reliability_calcs_constants : nat -> string -> R.

Local Abbreviation DLife_Conductor := (DLife_WoodSteel_Conductor df_reliability_calcs_constants).
Local Abbreviation DLife_Anchor := (DLife_WoodSteel_Anchor df_reliability_calcs_constants).
Local Abbreviation DLife_Guy := (DLife_WoodSteel_Guy df_reliability_calcs_constants).
Local Abbreviation DLife_OGW := (DLife_WoodSteel_OGW df_reliability_calcs_constants).
Local Abbreviation DLife_HI := (DLife_WoodSteel_HI df_reliability_calcs_constants).
Local Abbreviation DLife_StructureFoundation :=
  (DLife_WoodSteel_StructureFoundation df_reliability_calcs_constants).
Local Abbreviation DLife_AllOthers := (DLife_WoodSteel_AllOthers df_reliability_calcs_constants).

(** Lines 409-437: the structure-dependent calculations.  The three score
    lookups come first, in the order of the source, then the two factors;
    any of the lookups, either [max] and either [float] may raise.  The
    scores are ints or strs, never NaN, and so are the factors: both
    [math.isnan] guards are kept but never fire. *)
Definition structure_dependent_calculations (a : asset) : Py.result factors :=
  let outage_density_red_factor := - OUTAGE_DESIGNLIFE_MOD a in
  let splice_density_red_factor := Rmin (SPLICES a / 5 * r_spl) r_spl in
  let wear_fatigue_red_factor := WEAR_FATIGUE_RED_FAC a in
  score_agriculture <- MCE.loc (AGRICULTURE a) MCE.AGRICULTURE ;;
  score_wetland <- MCE.loc (WETLAND_TYPE a) MCE.WETLAND_TYPE ;;
  score_corrosion_atmospheric <- MCE.loc (CORROSION_ZONE a) MCE.ATMOSPHERIC_CORROSION ;;
  max_soil <- Py.max score_agriculture score_wetland ;;
  float_soil <- Py.float max_soil ;;
  let soil_corrosivity_red_factor := float_soil / 2 * r_cor in
  let soil_corrosivity_red_factor :=
    if Py.isnan soil_corrosivity_red_factor then 0 else soil_corrosivity_red_factor in
  max_atmospheric <- Py.max score_wetland score_corrosion_atmospheric ;;
  float_atmospheric <- Py.float max_atmospheric ;;
  let atmospheric_corrosivity_red_factor := float_atmospheric / 2 * r_cor in
  let atmospheric_corrosivity_red_factor :=
    if Py.isnan atmospheric_corrosivity_red_factor then 0
    else atmospheric_corrosivity_red_factor in
  Py.Return
    (mk_factors outage_density_red_factor splice_density_red_factor
       wear_fatigue_red_factor soil_corrosivity_red_factor
       atmospheric_corrosivity_red_factor).

(** Lines 473-534: the dispatch of the STEEL branch. *)
Definition DLife_STEEL (AGE_YEARS : R) (f : factors) (entry : string) : R * R * R :=
  let o := outage_density_red_factor f in
  let w := wear_fatigue_red_factor f in
  let sp := splice_density_red_factor f in
  let s := soil_corrosivity_red_factor f in
  let at_ := atmospheric_corrosivity_red_factor f in
  if String.eqb entry "CONDUCTOR_CD" then DLife_Conductor AGE_YEARS entry o w sp at_
  else if String.eqb entry "ANCHOR_CD" then DLife_Anchor AGE_YEARS entry o s
  else if String.eqb entry "GUY_CD" then DLife_Guy AGE_YEARS entry o at_
  else if String.eqb entry "OGW_CD" then DLife_OGW AGE_YEARS entry o at_ s
  else if String.eqb entry "HARDWARE_INSUL_CD" then DLife_HI AGE_YEARS entry o at_ s
  else if String.eqb entry "FOUNDATION_CD"
       then DLife_StructureFoundation AGE_YEARS entry o at_ w s
  else DLife_AllOthers AGE_YEARS entry o at_ w.

(** Lines 573-634: the dispatch of the WOOD branch, on the renamed theme. *)
Definition DLife_WOOD (AGE_YEARS : R) (f : factors) (entry_wood : string) : R * R * R :=
  let o := outage_density_red_factor f in
  let w := wear_fatigue_red_factor f in
  let sp := splice_density_red_factor f in
  let s := soil_corrosivity_red_factor f in
  let at_ := atmospheric_corrosivity_red_factor f in
  if String.eqb entry_wood "CONDUCTOR_CD" then DLife_Conductor AGE_YEARS entry_wood o w sp at_
  else if String.eqb entry_wood "ANCHOR_CD" then DLife_Anchor AGE_YEARS entry_wood o s
  else if String.eqb entry_wood "GUY_CD" then DLife_Guy AGE_YEARS entry_wood o at_
  else if String.eqb entry_wood "OGW_CD" then DLife_OGW AGE_YEARS entry_wood o at_ s
  else if String.eqb entry_wood "HARDWARE_INSUL_CD" then DLife_HI AGE_YEARS entry_wood o at_ s
  else if String.eqb entry_wood "STRUCTURE_CD"
       then DLife_StructureFoundation AGE_YEARS entry_wood o at_ w s
  else DLife_AllOthers AGE_YEARS entry_wood o at_ w.

(** Lines 658-723: the dispatch of the last branch (UNKNOWN and OTHER
    materials).  The third test compares with ["GUY"], and the tests for
    FOUNDATION and HARDWARE_INSUL come in the other order. *)
Definition DLife_OTHER (AGE_YEARS : R) (f : factors) (entry : string) : R * R * R :=
  let o := outage_density_red_factor f in
  let w := wear_fatigue_red_factor f in
  let sp := splice_density_red_factor f in
  let s := soil_corrosivity_red_factor f in
  let at_ := atmospheric_corrosivity_red_factor f in
  if String.eqb entry "CONDUCTOR_CD" then DLife_Conductor AGE_YEARS entry o w sp at_
  else if String.eqb entry "ANCHOR_CD" then DLife_Anchor AGE_YEARS entry o s
  else if String.eqb entry "GUY" then DLife_Guy AGE_YEARS entry o at_
  else if String.eqb entry "OGW_CD" then DLife_OGW AGE_YEARS entry o at_ s
  else if String.eqb entry "FOUNDATION_CD"
       then DLife_StructureFoundation AGE_YEARS entry o at_ w s
  else if String.eqb entry "HARDWARE_INSUL_CD" then DLife_HI AGE_YEARS entry o at_ s
  else DLife_AllOthers AGE_YEARS entry o at_ w.

Definition derived_of (t : R * R * R) (code : option R) : derived :=
  mk_derived (triple_adjustment t) (triple_adjusted t) (triple_cov t)
    (strength_ratio_of_code code) 1.

(** Lines 471-741: the material-dependent calculations of a structure for
    the theme [entry], once its reduction factors are known.  The age is
    [now.year - INSTALLED_YEAR] in every branch; the design ratio is 1. *)
Definition material_dependent_calculations (a : asset) (f : factors) (entry : string)
  : derived :=
  let AGE_YEARS := now_year - INSTALLED_YEAR a in
  if String.eqb (MATERIAL_FLAG a) "STEEL" then
    derived_of (DLife_STEEL AGE_YEARS f entry) (CD a entry)
  else if String.eqb (MATERIAL_FLAG a) "WOOD" then
    derived_of (DLife_WOOD AGE_YEARS f (entry_wood entry)) (CD a (entry_wood entry))
  else
    derived_of (DLife_OTHER AGE_YEARS f entry) (CD a entry).

(** One pass of the inner loop: structure [a], theme [entry]. *)
Definition loop_body (a : asset) (entry : string) : Py.result derived :=
  f <- structure_dependent_calculations a ;;
  Py.Return (material_dependent_calculations a f entry).

End MainLoop.

(** Modelled from the spec: [parameters.steel_pronto_themes] is not under
    src/.  The spec counts eight component families, and lines 759-781 read
    the derived columns of exactly these eight labels. *)
Definition steel_pronto_themes : list string :=
  ["ANCHOR_CD"; "GUY_CD"; "FOUNDATION_CD"; "STUB_SPLICE_CD"; "STRUCT_ATTACH_CD";
   "CONDUCTOR_CD"; "OGW_CD"; "HARDWARE_INSUL_CD"].

(* ================================================================== *)
(** ** Capacity distributions (lines 758-781)                         *)
(* ================================================================== *)

Record capacity : Type := mk_capacity {
  mean_ANCHOR : R;        stddev_ANCHOR : R;
  mean_GUY : R;           stddev_GUY : R;
  mean_CONDUCTOR : R;     stddev_CONDUCTOR : R;
  mean_OGW : R;           stddev_OGW : R;
  mean_HI : R;            stddev_HI : R;
  mean_FOUNDATION : R;    stddev_FOUNDATION : R;
  mean_STUB_SPLICE : R;   stddev_STUB_SPLICE : R;
  mean_STRUCT_ATTACH : R; stddev_STRUCT_ATTACH : R
}.

Section Capacity.

Variables mu_steel mu_wood : R.

(** Line 772: the [mu] column. *)
Definition mu (flag : string) : R :=
  if String.eqb flag "STEEL" then mu_steel else mu_wood.

(** [col entry] holds the five derived columns [entry_...] of one structure,
    [flag] its MATERIAL_FLAG. *)
Definition capacity_distribution (flag : string) (col : string -> derived) : capacity :=
  let sr e := strength_ratio (col e) in
  let dr e := design_ratio (col e) in
  let cv e := cov (col e) in
  {| mean_ANCHOR := sr "ANCHOR_CD" * dr "ANCHOR_CD" * mu_steel;
     stddev_ANCHOR := sr "ANCHOR_CD" * dr "ANCHOR_CD" * cv "ANCHOR_CD" * mu_steel;
     mean_GUY := sr "GUY_CD" * dr "GUY_CD" * mu_steel;
     stddev_GUY := sr "GUY_CD" * dr "GUY_CD" * cv "GUY_CD" * mu_steel;
     mean_CONDUCTOR := sr "CONDUCTOR_CD" * dr "CONDUCTOR_CD" * mu_steel;
     stddev_CONDUCTOR :=
       sr "CONDUCTOR_CD" * dr "CONDUCTOR_CD" * cv "CONDUCTOR_CD" * mu_steel;
     mean_OGW := sr "OGW_CD" * dr "OGW_CD" * mu_steel;
     stddev_OGW := sr "OGW_CD" * dr "OGW_CD" * cv "OGW_CD" * mu_steel;
     mean_HI := sr "HARDWARE_INSUL_CD" * dr "HARDWARE_INSUL_CD" * mu_steel;
     stddev_HI :=
       sr "HARDWARE_INSUL_CD" * dr "HARDWARE_INSUL_CD" * cv "HARDWARE_INSUL_CD" * mu_steel;
     mean_FOUNDATION := sr "FOUNDATION_CD" * dr "FOUNDATION_CD" * mu flag;
     stddev_FOUNDATION :=
       sr "FOUNDATION_CD" * dr "FOUNDATION_CD" * cv "FOUNDATION_CD" * mu flag;
     mean_STUB_SPLICE := sr "STUB_SPLICE_CD" * dr "STUB_SPLICE_CD" * mu flag;
     stddev_STUB_SPLICE :=
       sr "STUB_SPLICE_CD" * dr "STUB_SPLICE_CD" * cv "STUB_SPLICE_CD" * mu flag;
     mean_STRUCT_ATTACH := sr "STRUCT_ATTACH_CD" * dr "STRUCT_ATTACH_CD" * mu flag;
     stddev_STRUCT_ATTACH :=
       sr "STRUCT_ATTACH_CD" * dr "STRUCT_ATTACH_CD" * cv "STRUCT_ATTACH_CD" * mu flag |}.

End Capacity.

(** The capacity columns of one structure: the derived columns that the
    main loop appended for it (lines 744-748), fed to lines 759-781. *)
Definition structure_capacity (now_year : R) (constants : nat -> string -> R)
  (mu_steel mu_wood : R) (a : asset) (f : factors) : capacity :=
  capacity_distribution mu_steel mu_wood (MATERIAL_FLAG a)
    (material_dependent_calculations now_year constants a f).

(* ================================================================== *)
(** ** Probability of failure at a wind speed (lines 54-81, 787-789)  *)
(* ================================================================== *)

(** [np.maximum.reduce] of a list: the running maximum from the left.  The
    script calls it on eight elements; on no element numpy raises. *)
Definition np_maximum_reduce (l : list R) : R :=
  match l with
  | [] => 0
  | x :: xs => fold_left Rmax xs x
  end.

Section Fragility.

(** [lognorm.cdf(x, s, loc)] of scipy.stats, as the script calls it: three
    positional arguments. *)
Variable lognorm_cdf : R -> R -> R -> R.

Definition ComputeProbabilityFailureLogNorm (wspeed
  mean_ANCHOR stddev_ANCHOR mean_GUY stddev_GUY mean_FOUNDATION stddev_FOUNDATION
  mean_STUB_SPLICE stddev_STUB_SPLICE mean_STRUCT_ATTACH stddev_STRUCT_ATTACH
  mean_CONDUCTOR stddev_CONDUCTOR mean_OGW stddev_OGW mean_HI stddev_HI : R) : R :=
  ((1 - (1 - lognorm_cdf wspeed mean_ANCHOR stddev_ANCHOR)
        * (1 - lognorm_cdf wspeed mean_GUY stddev_GUY)
        * (1 - lognorm_cdf wspeed mean_FOUNDATION stddev_FOUNDATION)
        * (1 - lognorm_cdf wspeed mean_STUB_SPLICE stddev_STUB_SPLICE)
        * (1 - lognorm_cdf wspeed mean_STRUCT_ATTACH stddev_STRUCT_ATTACH)
        * (1 - lognorm_cdf wspeed mean_CONDUCTOR stddev_CONDUCTOR)
        * (1 - lognorm_cdf wspeed mean_OGW stddev_OGW)
        * (1 - lognorm_cdf wspeed mean_HI stddev_HI))
   + np_maximum_reduce
       [lognorm_cdf wspeed mean_ANCHOR stddev_ANCHOR;
        lognorm_cdf wspeed mean_GUY stddev_GUY;
        lognorm_cdf wspeed mean_FOUNDATION stddev_FOUNDATION;
        lognorm_cdf wspeed mean_STUB_SPLICE stddev_STUB_SPLICE;
        lognorm_cdf wspeed mean_STRUCT_ATTACH stddev_STRUCT_ATTACH;
        lognorm_cdf wspeed mean_CONDUCTOR stddev_CONDUCTOR;
        lognorm_cdf wspeed mean_OGW stddev_OGW;
        lognorm_cdf wspeed mean_HI stddev_HI]) / 2.

(** Line 789: the call of the sweep, on the capacity columns of a structure. *)
Definition p_fail (c : capacity) (wspeed : R) : R :=
  ComputeProbabilityFailureLogNorm wspeed
    (mean_ANCHOR c) (stddev_ANCHOR c) (mean_GUY c) (stddev_GUY c)
    (mean_FOUNDATION c) (stddev_FOUNDATION c) (mean_STUB_SPLICE c) (stddev_STUB_SPLICE c)
    (mean_STRUCT_ATTACH c) (stddev_STRUCT_ATTACH c) (mean_CONDUCTOR c) (stddev_CONDUCTOR c)
    (mean_OGW c) (stddev_OGW c) (mean_HI c) (stddev_HI c).

(** Lines 787-789: the columns [_0_mph] ... [_120_mph] of a structure. *)
Definition fragility_curve (c : capacity) : list (nat * R) :=
  map (fun wspeed => (wspeed, p_fail c (INR wspeed))) (seq 0 121).

End Fragility.

(* ================================================================== *)
(** ** The cov formula on binary64 floats                             *)
(* ================================================================== *)

(** The numbers of the script are IEEE binary64 floats (numpy scalars read
    from the data frames): a division by zero raises nothing and yields an
    infinity or NaN.  This module re-reads [DLife_WoodSteel_Conductor] on
    Rocq's binary64 floats, to settle what the real-number model cannot say
    at a zero divisor.  [x ** 2] is the correctly rounded square [x * x]. *)
Module Float64.

Import PrimFloat.
Local Open Scope float_scope.

Definition cov_formula (cov_0 cov_D AGE_YEARS design_life_adjusted : float) : float :=
  cov_0 + (cov_D - cov_0)
          * (AGE_YEARS * AGE_YEARS / (design_life_adjusted * design_life_adjusted)).

Definition DLife_WoodSteel_Conductor (constants : nat -> float)
  (AGE_YEARS outage wear_fatigue splice_density atmospheric : float)
  : float * float * float :=
  let design_life_adjustment :=
    if outage <? 0
    then (1 - sqrt (wear_fatigue * wear_fatigue + splice_density * splice_density
                    + atmospheric * atmospheric)) * (1 - outage)
    else 1 - sqrt (wear_fatigue * wear_fatigue + splice_density * splice_density
                   + atmospheric * atmospheric + outage * outage) in
  let design_life_adjusted := constants 2%nat * design_life_adjustment in
  let cov := cov_formula (constants 0%nat) (constants 1%nat) AGE_YEARS design_life_adjusted in
  (design_life_adjustment, design_life_adjusted, cov).

(** A float that is an infinity or NaN. *)
Definition not_finite (x : float) : Prop :=
  match FloatOps.Prim2SF x with
  | SpecFloat.S754_infinity _ | SpecFloat.S754_nan => True
  | _ => False
  end.

End Float64.

(* ================================================================== *)
(** ** The documented formulas, and sample structures                 *)
(* ================================================================== *)

(** The definitions of this part follow the wording of the specification,
    not the code; the properties below compare the two. *)

Definition int_or_marker (o : Py.obj) : Prop :=
  match o with
  | Py.int _ => True
  | Py.str s => s = MCE.marker
  end.

(** Root-sum-square: [RSS(x1..xn) = sqrt(x1^2 + ... + xn^2)]. *)
Definition RSS (xs : list R) : R :=
  sqrt (fold_right (fun x acc => x ^ 2 + acc) 0 xs).

(** The documented design-life adjustment, with its two sign branches. *)
Definition documented_adjustment (other_factors : list R) (outage_factor : R) : R :=
  if Rlt_dec outage_factor 0
  then (1 - RSS other_factors) * (1 - outage_factor)
  else 1 - RSS (other_factors ++ [outage_factor]).

(** The two terms of the documented combination of failure probabilities. *)
Definition independence_term (F : list R) : R :=
  1 - fold_right Rmult 1 (map (fun p => 1 - p) F).

Definition max_term (F : list R) : R :=
  fold_right Rmax (hd 0 F) F.

Definition blended (F : list R) : R :=
  (independence_term F + max_term F) / 2.

(** Sample rows of [df0]. *)

(** A structure whose land use is a label the score table does not carry. *)
Definition asset_unrecognized_land_use : asset :=
  mk_asset "STEEL" 1990 0 "Orchard" "Blank" "None" 0 0 (fun _ => None).

(** A structure whose land use is a label of the table without an
    agriculture score. *)
Definition asset_blank_land_use : asset :=
  mk_asset "STEEL" 1990 0 "Blank" "Blank" "None" 0 0 (fun _ => None).

(** A structure of material [flag] on neutral ground (all scores 0), with
    wear/fatigue factor [wear] and outage modifier [outage_mod]. *)
Definition asset_neutral (flag : string) (wear outage_mod : R) : asset :=
  mk_asset flag 1990 wear "Urban and Built-up Land" "Blank" "None" 0 outage_mod
    (fun _ => None).

(** A stand-in distribution function with the call signature of
    [lognorm.cdf]: the log-logistic law, that is the lognormal law with the
    logistic sigmoid in place of the normal one.  It instantiates the
    hypotheses on [lognorm_cdf] in the examples. *)
Definition loglogistic_cdf (x s loc : R) : R :=
  if Rle_dec (x - loc) 0 then 0
  else 1 / (1 + exp (- (ln (x - loc) / s))).

(** The row [a] with its MATERIAL_FLAG replaced, the other fields alike. *)
Definition with_material (a : asset) (flag : string) : asset :=
  mk_asset flag (INSTALLED_YEAR a) (WEAR_FATIGUE_RED_FAC a) (AGRICULTURE a)
    (WETLAND_TYPE a) (CORROSION_ZONE a) (SPLICES a) (OUTAGE_DESIGNLIFE_MOD a) (CD a).

(** The condition-code column a structure reads for the theme [entry]: the
    renamed one on a WOOD structure, [entry] itself otherwise. *)
Definition theme_of (a : asset) (entry : string) : string :=
  if String.eqb (MATERIAL_FLAG a) "WOOD" then entry_wood entry else entry.

(** Sample constants, the same for every theme: cov 1/8 at age zero, 1/4 at
    the design life, and a design life of 50 years; as reals and as floats
    (all three are binary64 numbers). *)
Definition sample_constants (i : nat) (theme : string) : R :=
  match i with
  | 0%nat => 1 / 8
  | 1%nat => 1 / 4
  | _ => 50
  end.

Module Float64Sample.

Import PrimFloat.
Local Open Scope float_scope.

Definition constants (i : nat) : float :=
  match i with
  | 0%nat => 0.125
  | 1%nat => 0.25
  | _ => 50
  end.

(** An age of thirty years. *)
Definition age : float := 30.

End Float64Sample.

(** The eight component families: the theme of each, its two capacity
    columns, and whether its nominal strength is the steel constant whatever
    the material. *)
Record family : Type := mk_family {
  theme : string;
  mean_of : capacity -> R;
  stddev_of : capacity -> R;
  always_steel : bool
}.

Definition families : list family :=
  [ mk_family "ANCHOR_CD" mean_ANCHOR stddev_ANCHOR true;
    mk_family "GUY_CD" mean_GUY stddev_GUY true;
    mk_family "FOUNDATION_CD" mean_FOUNDATION stddev_FOUNDATION false;
    mk_family "STUB_SPLICE_CD" mean_STUB_SPLICE stddev_STUB_SPLICE false;
    mk_family "STRUCT_ATTACH_CD" mean_STRUCT_ATTACH stddev_STRUCT_ATTACH false;
    mk_family "CONDUCTOR_CD" mean_CONDUCTOR stddev_CONDUCTOR true;
    mk_family "OGW_CD" mean_OGW stddev_OGW true;
    mk_family "HARDWARE_INSUL_CD" mean_HI stddev_HI true ].

(** The documented nominal strength of a family on a structure of material
    [flag]. *)
Definition nominal_strength (mu_steel mu_wood : R) (flag : string) (fam : family) : R :=
  if always_steel fam then mu_steel
  else if String.eqb flag "STEEL" then mu_steel
  else mu_wood.

(** A WOOD structure whose STRUCTURE_CD is 3, the other codes missing. *)
Definition asset_wood_structure_3 : asset :=
  mk_asset "WOOD" 1990 0 "Urban and Built-up Land" "Blank" "None" 0 0
    (fun column => if String.eqb column "STRUCTURE_CD" then Some 3 else None).

(** A STEEL structure whose every condition code is 8. *)
Definition asset_steel_codes_8 : asset :=
  mk_asset "STEEL" 1990 0 "Urban and Built-up Land" "Blank" "None" 0 0
    (fun _ => Some 8).

Definition no_reduction : factors := mk_factors 0 0 0 0 0.

(** [m] is the greatest element of [l]. *)
Definition is_max (m : R) (l : list R) : Prop :=
  In m l /\ Forall (fun p => p <= m) l.

(** The eight failure probabilities of a sweep step, in the order of the
    arguments of [ComputeProbabilityFailureLogNorm]. *)
Definition component_cdfs (lognorm_cdf : R -> R -> R -> R) (wspeed : R)
  (components : list (R * R)) : list R :=
  map (fun ms => lognorm_cdf wspeed (fst ms) (snd ms)) components.

(** The (mean, stddev) pairs of a structure, in that same order. *)
Definition components_of (c : capacity) : list (R * R) :=
  [ (mean_ANCHOR c, stddev_ANCHOR c); (mean_GUY c, stddev_GUY c);
    (mean_FOUNDATION c, stddev_FOUNDATION c); (mean_STUB_SPLICE c, stddev_STUB_SPLICE c);
    (mean_STRUCT_ATTACH c, stddev_STRUCT_ATTACH c); (mean_CONDUCTOR c, stddev_CONDUCTOR c);
    (mean_OGW c, stddev_OGW c); (mean_HI c, stddev_HI c) ].

(** Valid inputs of the sweep: every mean, which the script passes as the
    shape of the law, is positive. *)
Definition valid_components (components : list (R * R)) : Prop :=
  Forall (fun ms => 0 < fst ms) components.

(** What every design-life function returns as cov, in terms of the
    adjusted design life it returns, on the constants of [theme]. *)
Definition cov_of (constants : nat -> string -> R) (AGE_YEARS : R) (theme : string)
  (t : R * R * R) : Prop :=
  triple_cov t
  = constants 0%nat theme
    + (constants 1%nat theme - constants 0%nat theme)
      * (AGE_YEARS ^ 2 / triple_adjusted t ^ 2).

(* ================================================================== *)
(** ** Further definitions, for the properties beyond the claims      *)
(* ================================================================== *)

From Stdlib Require DecimalString DecimalNat DecimalFacts.
From Stdlib Require Import Permutation.

(** A score of the table that is an int lies between 0 and 2. *)
Definition score_in_range (o : Py.obj) : Prop :=
  match o with
  | Py.int z => (0 <= z <= 2)%Z
  | Py.str _ => True
  end.

(** The sum under the square root of a root-sum-square. *)
Definition sum_of_squares (xs : list R) : R :=
  fold_right (fun x acc => x ^ 2 + acc) 0 xs.

(** The reduction factors, other than the outage density, that the STEEL
    dispatch of lines 473-534 hands to the design-life function of a theme,
    in the order they appear under its square root. *)
Definition theme_factors (f : factors) (entry : string) : list R :=
  let w := wear_fatigue_red_factor f in
  let sp := splice_density_red_factor f in
  let s := soil_corrosivity_red_factor f in
  let at_ := atmospheric_corrosivity_red_factor f in
  if String.eqb entry "CONDUCTOR_CD" then [w; sp; at_]
  else if String.eqb entry "ANCHOR_CD" then [s]
  else if String.eqb entry "GUY_CD" then [at_]
  else if String.eqb entry "OGW_CD" then [s; at_]
  else if String.eqb entry "HARDWARE_INSUL_CD" then [s; at_]
  else if String.eqb entry "FOUNDATION_CD" then [w; s; at_]
  else [w; at_].

(** The factors [f] with the outage-density factor replaced. *)
Definition with_outage (f : factors) (outage : R) : factors :=
  mk_factors outage (splice_density_red_factor f) (wear_fatigue_red_factor f)
    (soil_corrosivity_red_factor f) (atmospheric_corrosivity_red_factor f).

(** Line 788: the label of the column of a sweep step,
    ["_" + str(wspeed) + "_mph"]; [str] of a natural number is its decimal
    numeral. *)
Definition str (n : nat) : string :=
  DecimalString.NilEmpty.string_of_uint (Nat.to_uint n).

Definition col_label (wspeed : nat) : string :=
  "_" ++ str wspeed ++ "_mph".

(** A structure with seven splices, on prime farmland by a lake, in a
    severe corrosion zone. *)
Definition asset_seven_splices : asset :=
  mk_asset "STEEL" 1990 (1 / 4) "Prime Farmland" "Lake" "severe" 7 (1 / 10)
    (fun _ => None).

(** Factors with soil corrosivity 3/10 and atmospheric corrosivity 4/10,
    the others 0. *)
Definition corrosive_ground : factors := mk_factors 0 0 0 (3 / 10) (4 / 10).

(** A condition code that leaves a positive strength ratio: a missing code,
    or a code below 7. *)
Definition code_below_7 (c : option R) : Prop :=
  match c with
  | None => True
  | Some x => x < 7
  end.

(* ================================================================== *)
(** ** The probability of failure on binary64 floats                  *)
(* ================================================================== *)

(** The real-number reading of lines 54-81 cannot show a NaN.  This module
    re-reads [ComputeProbabilityFailureLogNorm] on binary64 floats, with
    the argument check of [scipy.stats]: [lognorm.cdf(x, s, loc)] is NaN
    wherever [s > 0] fails (a shape that is zero, negative or NaN); where
    the shape is positive its value is that of the parameter
    [cdf_on_domain]. *)
Module Float64Sweep.

Import PrimFloat.
Local Open Scope float_scope.

Definition lognorm_cdf (cdf_on_domain : float -> float -> float -> float)
  (x s loc : float) : float :=
  if 0 <? s then cdf_on_domain x s loc else nan.

(** [np.maximum(x1, x2)]: [x1] when [x1 >= x2] or [x1] is NaN, else [x2];
    a NaN on either side is returned. *)
Definition np_maximum (x1 x2 : float) : float :=
  if (x2 <=? x1) || is_nan x1 then x1 else x2.

(** [np.maximum.reduce] of a list, from the left; numpy raises on no
    element, and the script passes eight. *)
Definition np_maximum_reduce (l : list float) : float :=
  match l with
  | [] => nan
  | x :: xs => fold_left np_maximum xs x
  end.

Definition ComputeProbabilityFailureLogNorm
  (cdf_on_domain : float -> float -> float -> float) (wspeed
  mean_ANCHOR stddev_ANCHOR mean_GUY stddev_GUY mean_FOUNDATION stddev_FOUNDATION
  mean_STUB_SPLICE stddev_STUB_SPLICE mean_STRUCT_ATTACH stddev_STRUCT_ATTACH
  mean_CONDUCTOR stddev_CONDUCTOR mean_OGW stddev_OGW mean_HI stddev_HI : float) : float :=
  let cdf := lognorm_cdf cdf_on_domain in
  ((1 - (1 - cdf wspeed mean_ANCHOR stddev_ANCHOR)
        * (1 - cdf wspeed mean_GUY stddev_GUY)
        * (1 - cdf wspeed mean_FOUNDATION stddev_FOUNDATION)
        * (1 - cdf wspeed mean_STUB_SPLICE stddev_STUB_SPLICE)
        * (1 - cdf wspeed mean_STRUCT_ATTACH stddev_STRUCT_ATTACH)
        * (1 - cdf wspeed mean_CONDUCTOR stddev_CONDUCTOR)
        * (1 - cdf wspeed mean_OGW stddev_OGW)
        * (1 - cdf wspeed mean_HI stddev_HI))
   + np_maximum_reduce
       [cdf wspeed mean_ANCHOR stddev_ANCHOR;
        cdf wspeed mean_GUY stddev_GUY;
        cdf wspeed mean_FOUNDATION stddev_FOUNDATION;
        cdf wspeed mean_STUB_SPLICE stddev_STUB_SPLICE;
        cdf wspeed mean_STRUCT_ATTACH stddev_STRUCT_ATTACH;
        cdf wspeed mean_CONDUCTOR stddev_CONDUCTOR;
        cdf wspeed mean_OGW stddev_OGW;
        cdf wspeed mean_HI stddev_HI]) / 2.

(** A stand-in for the values of [lognorm.cdf] on its domain: the
    log-logistic law of unit shape, [y / (1 + y)] for [y = x - loc > 0]. *)
Definition unit_loglogistic (x s loc : float) : float :=
  if x - loc <=? 0 then 0 else (x - loc) / (1 + (x - loc)).

End Float64Sweep.

(* ================================================================== *)
(** * Properties                                                      *)
(* ================================================================== *)

(** ** The score table and the structure-dependent calculations *)

(** The table has the forty rows of the source. *)
Lemma table_length : List.length MCE.df_MCE_corrosion_scores = 40%nat.
Proof. reflexivity. Qed.

(** The only str of the score table is the marker, in every column. *)
Lemma table_strs_are_marker :
  Forall (fun r =>
            int_or_marker (MCE.SNOWLOAD r) /\ int_or_marker (MCE.WETLAND_TYPE r)
            /\ int_or_marker (MCE.AGRICULTURE r)
            /\ int_or_marker (MCE.ATMOSPHERIC_CORROSION r)
            /\ int_or_marker (MCE.WIND_SPEED r)
            /\ int_or_marker (MCE.SOILS_RESISTIVITY r))
         MCE.df_MCE_corrosion_scores.
Proof.
  unfold MCE.df_MCE_corrosion_scores.
  repeat (apply Forall_cons; [cbn; repeat split; reflexivity |]).
  apply Forall_nil.
Qed.

(** The labels of the table are pairwise distinct: [loc] never meets two
    rows for one label. *)
Lemma table_labels_distinct :
  NoDup (map MCE.ROW_LABELS MCE.df_MCE_corrosion_scores).
Proof.
  unfold MCE.df_MCE_corrosion_scores; cbn [map MCE.ROW_LABELS].
  repeat (apply NoDup_cons;
          [ intro H; cbn [In] in H;
            repeat (destruct H as [H | H]; [discriminate H |]); exact H
          | ]).
  apply NoDup_nil.
Qed.

Section StructureCalculations.

Variables r_spl r_cor : R.

Lemma bind_raises (A B : Type) (m : Py.result A) (k : A -> Py.result B) :
  Py.raises m -> Py.raises (Py.bind m k).
Proof. destruct m; simpl; [intros [] | trivial]. Qed.

(** Ordering a str against anything and converting the outcome to a float
    never succeeds: an int on the other side makes [max] raise, a str makes
    [float] raise. *)
Lemma max_float_str_l (s : string) (o : Py.obj) :
  Py.raises (m <- Py.max (Py.str s) o ;; Py.float m).
Proof.
  destruct o as [z | t]; simpl; [exact I |].
  destruct (String.ltb s t); exact I.
Qed.

Lemma max_float_str_r (s : string) (o : Py.obj) :
  Py.raises (m <- Py.max o (Py.str s) ;; Py.float m).
Proof.
  destruct o as [z | t]; simpl; [exact I |].
  destruct (String.ltb t s); exact I.
Qed.

(** A land-use label that the table does not carry stops the pass with
    [KeyError], at the first lookup. *)
Lemma unrecognized_land_use_KeyError (a : asset) :
  MCE.loc (AGRICULTURE a) MCE.AGRICULTURE = Py.Raise Py.KeyError ->
  structure_dependent_calculations r_spl r_cor a = Py.Raise Py.KeyError.
Proof.
  intros H. unfold structure_dependent_calculations. rewrite H. reflexivity.
Qed.

(** A land-use label whose agriculture score is a str (the marker) never
    yields factors: the pass raises. *)
Lemma not_applicable_land_use_raises (a : asset) (s : string) :
  MCE.loc (AGRICULTURE a) MCE.AGRICULTURE = Py.Return (Py.str s) ->
  Py.raises (structure_dependent_calculations r_spl r_cor a).
Proof.
  intros H. unfold structure_dependent_calculations. rewrite H.
  cbn [Py.bind].
  destruct (MCE.loc (WETLAND_TYPE a) MCE.WETLAND_TYPE) as [w | e]; [| exact I].
  cbn [Py.bind].
  destruct (MCE.loc (CORROSION_ZONE a) MCE.ATMOSPHERIC_CORROSION) as [c | e]; [| exact I].
  cbn [Py.bind].
  pose proof (max_float_str_l s w) as Hm.
  destruct (Py.max (Py.str s) w) as [m | e]; [| exact I].
  cbn [Py.bind] in Hm |- *.
  destruct (Py.float m) as [x | e]; [destruct Hm | exact I].
Qed.

(** When the three labels carry int scores, the pass returns the factors of
    lines 409-437. *)
Lemma structure_dependent_calculations_ints (a : asset) (x y z : Z) :
  MCE.loc (AGRICULTURE a) MCE.AGRICULTURE = Py.Return (Py.int x) ->
  MCE.loc (WETLAND_TYPE a) MCE.WETLAND_TYPE = Py.Return (Py.int y) ->
  MCE.loc (CORROSION_ZONE a) MCE.ATMOSPHERIC_CORROSION = Py.Return (Py.int z) ->
  structure_dependent_calculations r_spl r_cor a =
  Py.Return
    (mk_factors (- OUTAGE_DESIGNLIFE_MOD a)
       (Rmin (SPLICES a / 5 * r_spl) r_spl)
       (WEAR_FATIGUE_RED_FAC a)
       (IZR (Z.max x y) / 2 * r_cor)
       (IZR (Z.max y z) / 2 * r_cor)).
Proof.
  intros Ha Hw Hc. unfold structure_dependent_calculations.
  rewrite Ha, Hw, Hc. cbn [Py.bind Py.max Py.gt Py.float Py.isnan].
  assert (Hmax : forall p q : Z,
             match (if (p <? q)%Z then Py.int q else Py.int p) with
             | Py.int n => Py.Return (IZR n)
             | Py.str _ => Py.Raise Py.ValueError
             end = Py.Return (IZR (Z.max p q))).
  { intros p q. destruct (Z.ltb_spec p q).
    - rewrite Z.max_r by lia. reflexivity.
    - rewrite Z.max_l by lia. reflexivity. }
  unfold Py.float. rewrite !Hmax. reflexivity.
Qed.

End StructureCalculations.

(** C3 (the code departs from the claim).  The claim: a land-use category
    without a score resolves to "not applicable" and gives soil-corrosivity
    factor 0, with no exception, and the design-life adjustment is computed
    from that factor.  On the code the pass of the main loop raises instead,
    for every theme: [KeyError] for a label absent from the table,
    [TypeError] for a label of the table whose agriculture score is the
    marker while the wetland score is an int. *)
Theorem land_use_without_score_raises
  (r_spl r_cor now_year : R) (constants : nat -> string -> R) (entry : string) :
  loop_body r_spl r_cor now_year constants asset_unrecognized_land_use entry
  = Py.Raise Py.KeyError
  /\ loop_body r_spl r_cor now_year constants asset_blank_land_use entry
     = Py.Raise Py.TypeError.
Proof. split; reflexivity. Qed.

(** ** Design-life adjustment against the documented branches *)

Section DesignLifeAdjustment.

Variable constants : nat -> string -> R.
Variables (AGE_YEARS : R) (entry : string).

Lemma RSS_nil : RSS [] = 0.
Proof. unfold RSS; simpl. apply sqrt_0. Qed.

Lemma RSS_single (x : R) : 0 <= x -> RSS [x] = x.
Proof.
  intros Hx. unfold RSS; simpl.
  replace (x * (x * 1) + 0) with (x * x) by ring.
  apply sqrt_square, Hx.
Qed.

Ltac adjustment_by_branch :=
  unfold triple_adjustment, documented_adjustment, RSS; cbn [fst snd app fold_right];
  destruct (Rlt_dec _ 0); rewrite ?Rplus_0_r, ?Rplus_assoc; reflexivity.

(** CONDUCTOR follows the documented branches on wear/fatigue, splice
    density and atmospheric corrosivity. *)
Lemma Conductor_adjustment_documented (o w sp a : R) :
  triple_adjustment (DLife_WoodSteel_Conductor constants AGE_YEARS entry o w sp a)
  = documented_adjustment [w; sp; a] o.
Proof. unfold DLife_WoodSteel_Conductor. adjustment_by_branch. Qed.

(** FOUNDATION/STRUCTURE: wear/fatigue, soil and atmospheric corrosivity. *)
Lemma StructureFoundation_adjustment_documented (o a w s : R) :
  triple_adjustment (DLife_WoodSteel_StructureFoundation constants AGE_YEARS entry o a w s)
  = documented_adjustment [w; s; a] o.
Proof. unfold DLife_WoodSteel_StructureFoundation. adjustment_by_branch. Qed.

(** The remaining themes: wear/fatigue and atmospheric corrosivity. *)
Lemma AllOthers_adjustment_documented (o a w : R) :
  triple_adjustment (DLife_WoodSteel_AllOthers constants AGE_YEARS entry o a w)
  = documented_adjustment [w; a] o.
Proof. unfold DLife_WoodSteel_AllOthers. adjustment_by_branch. Qed.

(** ANCHOR writes the root-sum-square of its one factor as the factor
    itself, which agrees for a factor that is not negative. *)
Lemma Anchor_adjustment_documented (o s : R) :
  0 <= s ->
  triple_adjustment (DLife_WoodSteel_Anchor constants AGE_YEARS entry o s)
  = documented_adjustment [s] o.
Proof.
  intros Hs. unfold DLife_WoodSteel_Anchor, triple_adjustment, documented_adjustment.
  cbn [fst snd app]. destruct (Rlt_dec o 0).
  - rewrite (RSS_single s Hs). reflexivity.
  - unfold RSS; cbn [fold_right]. rewrite ?Rplus_0_r. reflexivity.
Qed.

Lemma Guy_adjustment_documented (o a : R) :
  0 <= a ->
  triple_adjustment (DLife_WoodSteel_Guy constants AGE_YEARS entry o a)
  = documented_adjustment [a] o.
Proof.
  intros Ha. unfold DLife_WoodSteel_Guy, triple_adjustment, documented_adjustment.
  cbn [fst snd app]. destruct (Rlt_dec o 0).
  - rewrite (RSS_single a Ha). reflexivity.
  - unfold RSS; cbn [fold_right]. rewrite ?Rplus_0_r. reflexivity.
Qed.

(** OGW and HARDWARE_INSULATORS follow the documented branch when the
    outage factor is not negative ... *)
Lemma OGW_adjustment_documented_nonneg (o a s : R) :
  0 <= o ->
  triple_adjustment (DLife_WoodSteel_OGW constants AGE_YEARS entry o a s)
  = documented_adjustment [s; a] o.
Proof.
  intros Ho. unfold DLife_WoodSteel_OGW, triple_adjustment, documented_adjustment, RSS.
  cbn [fst snd app fold_right]. destruct (Rlt_dec o 0); [lra |].
  rewrite ?Rplus_0_r, ?Rplus_assoc. reflexivity.
Qed.

Lemma HI_adjustment_documented_nonneg (o a s : R) :
  0 <= o ->
  triple_adjustment (DLife_WoodSteel_HI constants AGE_YEARS entry o a s)
  = documented_adjustment [s; a] o.
Proof.
  intros Ho. unfold DLife_WoodSteel_HI, triple_adjustment, documented_adjustment, RSS.
  cbn [fst snd app fold_right]. destruct (Rlt_dec o 0); [lra |].
  rewrite ?Rplus_0_r, ?Rplus_assoc. reflexivity.
Qed.

(** ... and miss it by exactly the outage factor when it is negative: the
    multiplier reaches the root-sum-square only. *)
Lemma OGW_adjustment_negative_outage (o a s : R) :
  o < 0 ->
  triple_adjustment (DLife_WoodSteel_OGW constants AGE_YEARS entry o a s)
  = documented_adjustment [s; a] o + o.
Proof.
  intros Ho. unfold DLife_WoodSteel_OGW, triple_adjustment, documented_adjustment, RSS.
  cbn [fst snd app fold_right]. destruct (Rlt_dec o 0); [| lra].
  replace (s ^ 2 + (a ^ 2 + 0)) with (s ^ 2 + a ^ 2) by ring. ring.
Qed.

Lemma HI_adjustment_negative_outage (o a s : R) :
  o < 0 ->
  triple_adjustment (DLife_WoodSteel_HI constants AGE_YEARS entry o a s)
  = documented_adjustment [s; a] o + o.
Proof.
  intros Ho. unfold DLife_WoodSteel_HI, triple_adjustment, documented_adjustment, RSS.
  cbn [fst snd app fold_right]. destruct (Rlt_dec o 0); [| lra].
  replace (s ^ 2 + (a ^ 2 + 0)) with (s ^ 2 + a ^ 2) by ring. ring.
Qed.

End DesignLifeAdjustment.

Lemma sqrt_3_4_5 : sqrt ((3 / 10) ^ 2 + (4 / 10) ^ 2) = 1 / 2.
Proof. apply sqrt_lem_1; lra. Qed.

(** C1 (the code departs from the claim).  The claim: with a negative
    outage-density factor every family computes
    [(1 - RSS(other factors)) * (1 - outage)], OGW and HARDWARE_INSULATORS
    included.  At outage factor -1/10, atmospheric factor 4/10 and soil
    factor 3/10 the documented value is 11/20, and both [DLife_WoodSteel_OGW]
    and [DLife_WoodSteel_HI] return 9/20. *)
Theorem OGW_HI_negative_outage_adjustment
  (constants : nat -> string -> R) (AGE_YEARS : R) (entry : string) :
  documented_adjustment [3 / 10; 4 / 10] (- 1 / 10) = 11 / 20
  /\ triple_adjustment
       (DLife_WoodSteel_OGW constants AGE_YEARS entry (- 1 / 10) (4 / 10) (3 / 10)) = 9 / 20
  /\ triple_adjustment
       (DLife_WoodSteel_HI constants AGE_YEARS entry (- 1 / 10) (4 / 10) (3 / 10)) = 9 / 20.
Proof.
  assert (Hneg : - 1 / 10 < 0) by lra.
  split; [| split].
  - unfold documented_adjustment, RSS. cbn [fold_right].
    destruct (Rlt_dec (- 1 / 10) 0); [| lra].
    replace ((3 / 10) ^ 2 + ((4 / 10) ^ 2 + 0)) with ((3 / 10) ^ 2 + (4 / 10) ^ 2) by ring.
    rewrite sqrt_3_4_5. lra.
  - unfold DLife_WoodSteel_OGW, triple_adjustment. cbn [fst snd].
    destruct (Rlt_dec (- 1 / 10) 0); [| lra].
    rewrite sqrt_3_4_5. lra.
  - unfold DLife_WoodSteel_HI, triple_adjustment. cbn [fst snd].
    destruct (Rlt_dec (- 1 / 10) 0); [| lra].
    rewrite sqrt_3_4_5. lra.
Qed.

(** ** The branch of the UNKNOWN and OTHER materials against the STEEL one *)

Section OtherMaterial.

Variables r_spl r_cor now_year : R.
Variable constants : nat -> string -> R.

(** The two dispatches agree on every theme but the guy wire. *)
Lemma DLife_OTHER_as_STEEL (AGE_YEARS : R) (f : factors) (entry : string) :
  entry <> "GUY_CD" -> entry <> "GUY" ->
  DLife_OTHER constants AGE_YEARS f entry = DLife_STEEL constants AGE_YEARS f entry.
Proof.
  intros Hcd Hguy. unfold DLife_OTHER, DLife_STEEL.
  destruct (String.eqb_spec entry "CONDUCTOR_CD"); [reflexivity |].
  destruct (String.eqb_spec entry "ANCHOR_CD"); [reflexivity |].
  destruct (String.eqb_spec entry "GUY"); [contradiction |].
  destruct (String.eqb_spec entry "GUY_CD"); [contradiction |].
  destruct (String.eqb_spec entry "OGW_CD"); [reflexivity |].
  destruct (String.eqb_spec entry "FOUNDATION_CD") as [-> | ?]; [reflexivity |].
  destruct (String.eqb_spec entry "HARDWARE_INSUL_CD"); reflexivity.
Qed.

(** On the guy-wire theme the last branch runs [DLife_WoodSteel_AllOthers],
    the STEEL branch [DLife_WoodSteel_Guy]. *)
Lemma DLife_OTHER_GUY_CD (AGE_YEARS : R) (f : factors) :
  DLife_OTHER constants AGE_YEARS f "GUY_CD"
  = DLife_WoodSteel_AllOthers constants AGE_YEARS "GUY_CD"
      (outage_density_red_factor f) (atmospheric_corrosivity_red_factor f)
      (wear_fatigue_red_factor f).
Proof. reflexivity. Qed.

Lemma DLife_STEEL_GUY_CD (AGE_YEARS : R) (f : factors) :
  DLife_STEEL constants AGE_YEARS f "GUY_CD"
  = DLife_WoodSteel_Guy constants AGE_YEARS "GUY_CD"
      (outage_density_red_factor f) (atmospheric_corrosivity_red_factor f).
Proof. reflexivity. Qed.

(** Seven of the eight themes: a structure that is neither STEEL nor WOOD
    gets the derived quantities of the STEEL structure with the same fields. *)
Lemma other_material_as_STEEL (a : asset) (f : factors) (entry : string) :
  MATERIAL_FLAG a <> "STEEL" -> MATERIAL_FLAG a <> "WOOD" ->
  In entry steel_pronto_themes -> entry <> "GUY_CD" ->
  material_dependent_calculations now_year constants a f entry
  = material_dependent_calculations now_year constants (with_material a "STEEL") f entry.
Proof.
  intros Hs Hw Hin Hguy. unfold material_dependent_calculations.
  cbn [MATERIAL_FLAG with_material INSTALLED_YEAR CD].
  destruct (String.eqb_spec (MATERIAL_FLAG a) "STEEL"); [contradiction |].
  destruct (String.eqb_spec (MATERIAL_FLAG a) "WOOD"); [contradiction |].
  rewrite DLife_OTHER_as_STEEL; [reflexivity | exact Hguy |].
  intros ->. cbn in Hin. repeat (destruct Hin as [Hin | Hin]; [discriminate Hin |]).
  exact Hin.
Qed.

Lemma neutral_factors (flag : string) (wear outage_mod : R) :
  structure_dependent_calculations r_spl r_cor (asset_neutral flag wear outage_mod)
  = Py.Return
      (mk_factors (- outage_mod) (Rmin (0 / 5 * r_spl) r_spl) wear
         (IZR (Z.max 0 0) / 2 * r_cor) (IZR (Z.max 0 0) / 2 * r_cor)).
Proof.
  apply (structure_dependent_calculations_ints r_spl r_cor
           (asset_neutral flag wear outage_mod) 0 0 0); reflexivity.
Qed.

End OtherMaterial.

Lemma sqrt_three_fifths : sqrt ((3 / 5) ^ 2 + (0 / 2) ^ 2 + (- 0) ^ 2) = 3 / 5.
Proof. apply sqrt_lem_1; lra. Qed.

(** C2 (the code departs from the claim).  The claim: a structure that is
    neither STEEL nor WOOD gets, for all eight themes and GUY among them,
    the derived quantities of a STEEL structure with the same fields.  For
    the theme [GUY_CD], on neutral ground with wear/fatigue factor 3/5 and
    outage modifier 0, a structure flagged OTHER gets the design-life
    adjustment 2/5 and the same structure flagged STEEL gets 1. *)
Theorem GUY_CD_of_other_material_differs_from_STEEL
  (r_spl r_cor now_year : R) (constants : nat -> string -> R) :
  (exists d,
      loop_body r_spl r_cor now_year constants (asset_neutral "OTHER" (3 / 5) 0) "GUY_CD"
      = Py.Return d
      /\ design_life_adjustment d = 2 / 5)
  /\ (exists d,
         loop_body r_spl r_cor now_year constants (asset_neutral "STEEL" (3 / 5) 0) "GUY_CD"
         = Py.Return d
         /\ design_life_adjustment d = 1).
Proof.
  split; eexists; unfold loop_body; rewrite neutral_factors; cbn [Py.bind];
    (split; [reflexivity |]).
  - unfold material_dependent_calculations. cbn [MATERIAL_FLAG asset_neutral].
    change (String.eqb "OTHER" "STEEL") with false.
    change (String.eqb "OTHER" "WOOD") with false.
    cbv iota. rewrite DLife_OTHER_GUY_CD.
    unfold derived_of, triple_adjustment, DLife_WoodSteel_AllOthers.
    cbn [design_life_adjustment fst snd outage_density_red_factor
         atmospheric_corrosivity_red_factor wear_fatigue_red_factor].
    destruct (Rlt_dec (- 0) 0); [lra |].
    replace (IZR (Z.max 0 0) / 2 * r_cor) with (0 / 2) by (cbn; lra).
    rewrite sqrt_three_fifths. lra.
  - unfold material_dependent_calculations. cbn [MATERIAL_FLAG asset_neutral].
    change (String.eqb "STEEL" "STEEL") with true.
    cbv iota. rewrite DLife_STEEL_GUY_CD.
    unfold derived_of, triple_adjustment, DLife_WoodSteel_Guy.
    cbn [design_life_adjustment fst snd outage_density_red_factor
         atmospheric_corrosivity_red_factor wear_fatigue_red_factor].
    destruct (Rlt_dec (- 0) 0); [lra |].
    replace (IZR (Z.max 0 0) / 2 * r_cor) with 0 by (cbn; lra).
    replace (0 ^ 2 + (- 0) ^ 2) with 0 by ring.
    rewrite sqrt_0. lra.
Qed.

(** ** The coefficient of variation at a degenerate design life *)

Section CovFormula.

Variable constants : nat -> string -> R.

Lemma DLife_STEEL_cov (AGE_YEARS : R) (f : factors) (entry : string) :
  cov_of constants AGE_YEARS entry (DLife_STEEL constants AGE_YEARS f entry).
Proof.
  unfold DLife_STEEL.
  repeat match goal with
         | |- context [if ?b then _ else _] => destruct b
         end; reflexivity.
Qed.

Lemma DLife_WOOD_cov (AGE_YEARS : R) (f : factors) (entry : string) :
  cov_of constants AGE_YEARS entry (DLife_WOOD constants AGE_YEARS f entry).
Proof.
  unfold DLife_WOOD.
  repeat match goal with
         | |- context [if ?b then _ else _] => destruct b
         end; reflexivity.
Qed.

Lemma DLife_OTHER_cov (AGE_YEARS : R) (f : factors) (entry : string) :
  cov_of constants AGE_YEARS entry (DLife_OTHER constants AGE_YEARS f entry).
Proof.
  unfold DLife_OTHER.
  repeat match goal with
         | |- context [if ?b then _ else _] => destruct b
         end; reflexivity.
Qed.

(** The cov of a pass, whatever the material: the formula of the source on
    the constants of the theme the structure reads. *)
Lemma material_dependent_cov (now_year : R) (a : asset) (f : factors) (entry : string) :
  let d := material_dependent_calculations now_year constants a f entry in
  cov d
  = constants 0%nat (theme_of a entry)
    + (constants 1%nat (theme_of a entry) - constants 0%nat (theme_of a entry))
      * ((now_year - INSTALLED_YEAR a) ^ 2 / design_life_adjusted d ^ 2).
Proof.
  unfold material_dependent_calculations, theme_of.
  destruct (String.eqb_spec (MATERIAL_FLAG a) "STEEL") as [Hs | Hs].
  - rewrite Hs. change (String.eqb "STEEL" "WOOD") with false. cbv iota zeta.
    apply DLife_STEEL_cov.
  - destruct (String.eqb (MATERIAL_FLAG a) "WOOD"); cbv zeta.
    + apply DLife_WOOD_cov.
    + apply DLife_OTHER_cov.
Qed.

End CovFormula.

(** *** On binary64 floats: a zero adjusted design life *)

Module Float64Facts.

Import PrimFloat SpecFloat FloatOps FloatAxioms.

Lemma eqb_zero (x : float) :
  PrimFloat.eqb x 0%float = true -> exists s, Prim2SF x = S754_zero s.
Proof.
  rewrite eqb_spec. change (Prim2SF 0%float) with (S754_zero false).
  destruct (Prim2SF x) as [s | s | | s m e].
  - intros _. exists s. reflexivity.
  - destruct s; discriminate.
  - discriminate.
  - destruct s; discriminate.
Qed.

Lemma div_by_zero_not_finite (x y : float) (s : bool) :
  Prim2SF y = S754_zero s -> Float64.not_finite (x / y)%float.
Proof.
  intros Hy. unfold Float64.not_finite. rewrite div_spec, Hy.
  destruct (Prim2SF x); exact I.
Qed.

Lemma mul_not_finite (x y : float) :
  Float64.not_finite y -> Float64.not_finite (x * y)%float.
Proof.
  unfold Float64.not_finite. rewrite mul_spec.
  destruct (Prim2SF y); try contradiction; intros _; destruct (Prim2SF x); exact I.
Qed.

Lemma add_not_finite (x y : float) :
  Float64.not_finite y -> Float64.not_finite (x + y)%float.
Proof.
  unfold Float64.not_finite. rewrite add_spec.
  destruct (Prim2SF y) as [sy | sy | | sy my ey]; try contradiction; intros _;
    destruct (Prim2SF x) as [sx | sx | | sx mx ex]; try exact I.
  destruct sx, sy; exact I.
Qed.

(** With an adjusted design life equal to zero the cov formula yields an
    infinity or NaN, whatever the constants and the age. *)
Lemma cov_formula_zero_life (cov_0 cov_D AGE_YEARS life : float) :
  PrimFloat.eqb life 0%float = true ->
  Float64.not_finite (Float64.cov_formula cov_0 cov_D AGE_YEARS life).
Proof.
  intros Hz. destruct (eqb_zero life Hz) as [s Hs].
  unfold Float64.cov_formula.
  apply add_not_finite, mul_not_finite.
  apply (div_by_zero_not_finite _ _ (xorb s s)).
  rewrite mul_spec, Hs. reflexivity.
Qed.

(** C4 (counterexample).  The claim: with an adjusted design life that is
    zero or negative the computation surfaces an error instead of a cov.
    At age 30 and outage-density factor 1, the other factors being 0,
    [DLife_WoodSteel_Conductor] returns the design-life adjustment 0, the
    adjusted design life 0 and, as cov, the float infinity. *)
Lemma zero_design_life_returns_infinite_cov :
  (Float64.DLife_WoodSteel_Conductor Float64Sample.constants 30 1 0 0 0
   = (0, 0, infinity))%float.
Proof. vm_compute. reflexivity. Qed.

End Float64Facts.


(** A pass of the main loop with a negative adjusted design life: a STEEL
    structure on neutral ground, installed in 1990 and read in 2020, with
    outage modifier -2, on the CONDUCTOR theme. *)
Lemma negative_design_life_pass :
  let f := mk_factors (- - 2) (Rmin (0 / 5 * (1 / 10)) (1 / 10)) 0
             (IZR (Z.max 0 0) / 2 * (1 / 10)) (IZR (Z.max 0 0) / 2 * (1 / 10)) in
  let d := material_dependent_calculations 2020 sample_constants
             (asset_neutral "STEEL" 0 (- 2)) f "CONDUCTOR_CD" in
  design_life_adjustment d = - 1 /\ design_life_adjusted d = - 50 /\ cov d = 17 / 100.
Proof.
  cbv zeta.
  unfold material_dependent_calculations. cbn [MATERIAL_FLAG asset_neutral INSTALLED_YEAR].
  change (String.eqb "STEEL" "STEEL") with true. cbv iota.
  unfold DLife_STEEL. change (String.eqb "CONDUCTOR_CD" "CONDUCTOR_CD") with true.
  cbv iota.
  unfold derived_of, triple_adjustment, triple_adjusted, triple_cov,
    DLife_WoodSteel_Conductor, sample_constants.
  cbn [design_life_adjustment design_life_adjusted cov fst snd outage_density_red_factor
       atmospheric_corrosivity_red_factor wear_fatigue_red_factor
       splice_density_red_factor].
  destruct (Rlt_dec (- - 2) 0); [lra |].
  assert (Hmin : Rmin (0 / 5 * (1 / 10)) (1 / 10) = 0).
  { unfold Rmin. destruct (Rle_dec (0 / 5 * (1 / 10)) (1 / 10)); lra. }
  assert (Hsqrt : sqrt (0 ^ 2 + Rmin (0 / 5 * (1 / 10)) (1 / 10) ^ 2
                        + (IZR (Z.max 0 0) / 2 * (1 / 10)) ^ 2 + (- - 2) ^ 2) = 2).
  { rewrite Hmin. apply sqrt_lem_1; [cbn; lra | lra | cbn; lra]. }
  rewrite Hsqrt. repeat split; [lra | lra | field].
Qed.

(** C4 (amended).  No error is raised or flagged at a degenerate design
    life.  With a negative adjusted design life the pass of the main loop
    returns its record, whose cov is the value of the formula for the
    positive life of the same magnitude,
    [cov_0 + (cov_D - cov_0) * (age / - life) ^ 2].  With an adjusted design
    life equal to zero, on binary64 floats, the cov expression of lines 101,
    122, 142, 163, 184, 206 and 227 is an infinity or NaN, and so is the cov
    that [DLife_WoodSteel_Conductor] returns. *)
Theorem degenerate_design_life_is_silent :
  (forall (r_spl r_cor now_year : R) (constants : nat -> string -> R)
          (a : asset) (f : factors) (entry : string),
      structure_dependent_calculations r_spl r_cor a = Py.Return f ->
      let d := material_dependent_calculations now_year constants a f entry in
      design_life_adjusted d < 0 ->
      loop_body r_spl r_cor now_year constants a entry = Py.Return d
      /\ cov d
         = constants 0%nat (theme_of a entry)
           + (constants 1%nat (theme_of a entry) - constants 0%nat (theme_of a entry))
             * ((now_year - INSTALLED_YEAR a) / - design_life_adjusted d) ^ 2)
  /\ (forall cov_0 cov_D AGE_YEARS design_life_adjusted : PrimFloat.float,
         PrimFloat.eqb design_life_adjusted PrimFloat.zero = true ->
         Float64.not_finite
           (Float64.cov_formula cov_0 cov_D AGE_YEARS design_life_adjusted))
  /\ (forall (constants : nat -> PrimFloat.float)
             (AGE_YEARS outage wear_fatigue splice_density atmospheric : PrimFloat.float),
         let t := Float64.DLife_WoodSteel_Conductor constants AGE_YEARS outage
                    wear_fatigue splice_density atmospheric in
         PrimFloat.eqb (snd (fst t)) PrimFloat.zero = true ->
         Float64.not_finite (snd t)).
Proof.
  split; [| split].
  - intros r_spl r_cor now_year constants a f entry Hf d Hneg. split.
    + unfold loop_body. rewrite Hf. reflexivity.
    + subst d. rewrite material_dependent_cov. f_equal. f_equal.
      field. lra.
  - exact Float64Facts.cov_formula_zero_life.
  - intros constants AGE_YEARS o w sp at_ t Hz.
    apply Float64Facts.cov_formula_zero_life. exact Hz.
Qed.

(** The amended statement at the two sample inputs above. *)
Lemma degenerate_design_life_is_silent_witness :
  (exists d,
      loop_body (1 / 10) (1 / 10) 2020 sample_constants
        (asset_neutral "STEEL" 0 (- 2)) "CONDUCTOR_CD" = Py.Return d
      /\ cov d
         = 1 / 8 + (1 / 4 - 1 / 8) * ((2020 - 1990) / - design_life_adjusted d) ^ 2)
  /\ Float64.not_finite
       (snd (Float64.DLife_WoodSteel_Conductor Float64Sample.constants
               Float64Sample.age PrimFloat.one PrimFloat.zero
               PrimFloat.zero PrimFloat.zero)).
Proof.
  split.
  - eexists.
    refine (proj1 degenerate_design_life_is_silent (1 / 10) (1 / 10) 2020
              sample_constants (asset_neutral "STEEL" 0 (- 2)) _ "CONDUCTOR_CD"
              (neutral_factors (1 / 10) (1 / 10) "STEEL" 0 (- 2)) _).
    destruct negative_design_life_pass as [_ [H _]]. rewrite H. lra.
  - apply (proj2 (proj2 degenerate_design_life_is_silent)). vm_compute. reflexivity.
Defined.

(** ** Strength ratio and capacity distribution *)

Section StrengthRatio.

Variable now_year : R.
Variable constants : nat -> string -> R.

(** Whatever the material, the strength ratio of a pass is the one of the
    condition code the structure reads for the theme. *)
Lemma strength_ratio_of_pass (a : asset) (f : factors) (entry : string) :
  strength_ratio (material_dependent_calculations now_year constants a f entry)
  = strength_ratio_of_code (CD a (theme_of a entry)).
Proof.
  unfold material_dependent_calculations, theme_of.
  destruct (String.eqb_spec (MATERIAL_FLAG a) "STEEL") as [Hs | Hs].
  - rewrite Hs. reflexivity.
  - destruct (String.eqb (MATERIAL_FLAG a) "WOOD"); reflexivity.
Qed.

Lemma design_ratio_of_pass (a : asset) (f : factors) (entry : string) :
  design_ratio (material_dependent_calculations now_year constants a f entry) = 1.
Proof.
  unfold material_dependent_calculations.
  destruct (String.eqb (MATERIAL_FLAG a) "STEEL"); [reflexivity |].
  destruct (String.eqb (MATERIAL_FLAG a) "WOOD"); reflexivity.
Qed.

End StrengthRatio.

Lemma strength_ratio_of_code_linear (x : R) :
  x <> 0 -> x <> 2 -> strength_ratio_of_code (Some x) = 1 - (x - 1) / 6.
Proof.
  intros H0 H2. unfold strength_ratio_of_code.
  destruct (Req_dec_T x 0); [contradiction |].
  destruct (Req_dec_T x 2); [contradiction |]. reflexivity.
Qed.

Lemma strength_ratio_of_code_0 : strength_ratio_of_code (Some 0) = 1.
Proof.
  unfold strength_ratio_of_code. destruct (Req_dec_T 0 0); [reflexivity | lra].
Qed.

Lemma strength_ratio_of_code_2 : strength_ratio_of_code (Some 2) = 92 / 100.
Proof.
  unfold strength_ratio_of_code.
  destruct (Req_dec_T 2 0); [lra |]. destruct (Req_dec_T 2 2); [reflexivity | lra].
Qed.

(** C8.  For every structure and theme, the strength ratio of the pass
    is 1 when the condition code is 0 or missing, 92/100 when it is 2, and
    [1 - (c - 1) / 6] otherwise; so code 7 gives 0. *)
Theorem strength_ratio_from_condition_code
  (now_year : R) (constants : nat -> string -> R)
  (a : asset) (f : factors) (entry : string) :
  let c := CD a (theme_of a entry) in
  let sr := strength_ratio (material_dependent_calculations now_year constants a f entry) in
  (c = None \/ c = Some 0 -> sr = 1)
  /\ (c = Some 2 -> sr = 92 / 100)
  /\ (forall x, c = Some x -> x <> 0 -> x <> 2 -> sr = 1 - (x - 1) / 6)
  /\ (c = Some 7 -> sr = 0).
Proof.
  cbv zeta. rewrite strength_ratio_of_pass.
  repeat split.
  - intros [-> | ->]; [reflexivity | apply strength_ratio_of_code_0].
  - intros ->. apply strength_ratio_of_code_2.
  - intros x -> H0 H2. apply strength_ratio_of_code_linear; assumption.
  - intros ->. rewrite strength_ratio_of_code_linear; lra.
Qed.

(** The aliasing of a WOOD structure: code 3 in STRUCTURE_CD, read for the
    theme FOUNDATION_CD, gives the ratio of the linear scale. *)
Lemma strength_ratio_from_condition_code_witness :
  strength_ratio
    (material_dependent_calculations 2020 sample_constants asset_wood_structure_3
       no_reduction "FOUNDATION_CD")
  = 1 - (3 - 1) / 6.
Proof.
  apply (proj1 (proj2 (proj2
           (strength_ratio_from_condition_code 2020 sample_constants
              asset_wood_structure_3 no_reduction "FOUNDATION_CD"))) 3).
  - reflexivity.
  - lra.
  - lra.
Defined.

(** C9.  For every family, the capacity columns are
    [mean = strength_ratio * design_ratio * mu] and [stddev = mean * cov],
    where [mu] is the steel constant for ANCHOR, GUY, CONDUCTOR, OGW and
    HARDWARE_INSULATORS whatever the material flag, and for the three other
    families the steel constant on a STEEL structure and the wood constant
    otherwise. *)
Theorem capacity_distribution_mean_stddev
  (mu_steel mu_wood : R) (flag : string) (col : string -> derived) :
  Forall (fun fam =>
            let c := capacity_distribution mu_steel mu_wood flag col in
            let d := col (theme fam) in
            mean_of fam c
            = strength_ratio d * design_ratio d * nominal_strength mu_steel mu_wood flag fam
            /\ stddev_of fam c = mean_of fam c * cov d)
         families.
Proof.
  unfold families, nominal_strength, capacity_distribution, mu.
  repeat (apply Forall_cons;
          [cbn [theme mean_of stddev_of always_steel
                mean_ANCHOR stddev_ANCHOR mean_GUY stddev_GUY mean_CONDUCTOR
                stddev_CONDUCTOR mean_OGW stddev_OGW mean_HI stddev_HI
                mean_FOUNDATION stddev_FOUNDATION mean_STUB_SPLICE stddev_STUB_SPLICE
                mean_STRUCT_ATTACH stddev_STRUCT_ATTACH];
           split; [reflexivity | ring] |]).
  apply Forall_nil.
Qed.

(** The mean column of a family, as lines 759-781 compute it. *)
Lemma mean_of_family (mu_steel mu_wood : R) (flag : string) (col : string -> derived)
  (fam : family) :
  In fam families ->
  mean_of fam (capacity_distribution mu_steel mu_wood flag col)
  = strength_ratio (col (theme fam)) * design_ratio (col (theme fam))
    * nominal_strength mu_steel mu_wood flag fam.
Proof.
  intros Hin. unfold families in Hin. cbn [In] in Hin.
  repeat (destruct Hin as [<- | Hin]; [reflexivity |]).
  destruct Hin.
Qed.

(** ** Condition codes beyond the scale *)

Lemma strength_ratio_of_code_negative (x : R) :
  7 < x -> strength_ratio_of_code (Some x) < 0.
Proof.
  intros Hx. rewrite strength_ratio_of_code_linear; lra.
Qed.

Lemma strength_ratio_of_code_in_unit (x : R) :
  0 <= strength_ratio_of_code (Some x) <= 1 -> 0 <= x <= 7.
Proof.
  unfold strength_ratio_of_code.
  destruct (Req_dec_T x 0); [lra |].
  destruct (Req_dec_T x 2); lra.
Qed.

Lemma strength_ratio_of_code_integer (n : Z) :
  0 <= strength_ratio_of_code (Some (IZR n)) <= 1 <-> (0 <= n <= 7)%Z.
Proof.
  split.
  - intros H. apply strength_ratio_of_code_in_unit in H.
    destruct H as [H0 H7]. split; [apply le_IZR | apply le_IZR]; assumption.
  - intros [H0 H7]. unfold strength_ratio_of_code.
    destruct (Req_dec_T (IZR n) 0); [lra |].
    destruct (Req_dec_T (IZR n) 2); [lra |].
    assert (Hn : (n <> 0)%Z) by (intros ->; lra).
    assert (H1 : (1 <= n)%Z) by lia.
    apply IZR_le in H1, H7. lra.
Qed.

(** C10.  The linear branch is not clamped: a condition code above 7 gives
    a strictly negative strength ratio (code 8 gives -1/6), and with it a
    negative mean in the capacity column of its family, for positive
    nominal strengths; the ratio lies in [0, 1] only for codes between 0
    and 7, and for a whole code exactly then. *)
Theorem strength_ratio_beyond_code_7 :
  (forall x : R, 7 < x -> strength_ratio_of_code (Some x) < 0)
  /\ strength_ratio_of_code (Some 8) = - 1 / 6
  /\ (forall (now_year : R) (constants : nat -> string -> R) (mu_steel mu_wood : R)
             (a : asset) (f : factors),
         0 < mu_steel -> 0 < mu_wood ->
         Forall (fun fam =>
                   forall x : R,
                     CD a (theme_of a (theme fam)) = Some x -> 7 < x ->
                     strength_ratio
                       (material_dependent_calculations now_year constants a f (theme fam)) < 0
                     /\ mean_of fam
                          (structure_capacity now_year constants mu_steel mu_wood a f) < 0)
                families)
  /\ (forall x : R, 0 <= strength_ratio_of_code (Some x) <= 1 -> 0 <= x <= 7)
  /\ (forall n : Z, 0 <= strength_ratio_of_code (Some (IZR n)) <= 1 <-> (0 <= n <= 7)%Z).
Proof.
  split; [exact strength_ratio_of_code_negative |].
  split; [rewrite strength_ratio_of_code_linear; lra |].
  split; [| split; [exact strength_ratio_of_code_in_unit
                   | exact strength_ratio_of_code_integer]].
  intros now_year constants mu_steel mu_wood a f Hs Hw.
  assert (Hmu : forall fam, 0 < nominal_strength mu_steel mu_wood (MATERIAL_FLAG a) fam).
  { intros fam. unfold nominal_strength.
    destruct (always_steel fam); [assumption |].
    destruct (String.eqb (MATERIAL_FLAG a) "STEEL"); assumption. }
  apply Forall_forall. intros fam Hin x Hcode Hx.
  pose proof (mean_of_family mu_steel mu_wood (MATERIAL_FLAG a)
                (material_dependent_calculations now_year constants a f) fam Hin) as Hmean.
  assert (Hsr : strength_ratio
                  (material_dependent_calculations now_year constants a f (theme fam)) < 0).
  { rewrite strength_ratio_of_pass, Hcode. apply strength_ratio_of_code_negative, Hx. }
  split; [exact Hsr |].
  unfold structure_capacity. rewrite Hmean, design_ratio_of_pass.
  specialize (Hmu fam). nra.
Qed.

(** A STEEL structure with every condition code at 8, nominal strengths
    100 and 80: the anchor has a negative strength ratio and mean. *)
Lemma strength_ratio_beyond_code_7_witness :
  strength_ratio
    (material_dependent_calculations 2020 sample_constants asset_steel_codes_8
       no_reduction "ANCHOR_CD") < 0
  /\ mean_ANCHOR
       (structure_capacity 2020 sample_constants 100 80 asset_steel_codes_8 no_reduction) < 0.
Proof.
  assert (H100 : 0 < 100) by lra.
  assert (H80 : 0 < 80) by lra.
  assert (H8 : 7 < 8) by lra.
  exact (Forall_inv
           (proj1 (proj2 (proj2 strength_ratio_beyond_code_7))
              2020 sample_constants 100 80 asset_steel_codes_8 no_reduction H100 H80)
           8 eq_refl H8).
Defined.

(** ** The combination of the eight failure probabilities *)

Lemma fold_left_Rmax_spec (xs : list R) :
  forall a, let m := fold_left Rmax xs a in
            (m = a \/ In m xs) /\ a <= m /\ Forall (fun p => p <= m) xs.
Proof.
  induction xs as [| y ys IH]; intros a; cbn [fold_left].
  - repeat split; [left; reflexivity | lra | constructor].
  - specialize (IH (Rmax a y)). cbv zeta in IH.
    destruct IH as [Hin [Hle Hall]].
    pose proof (Rmax_l a y) as Hl. pose proof (Rmax_r a y) as Hr.
    repeat split.
    + destruct Hin as [Heq | Hin]; [| right; right; exact Hin].
      rewrite Heq. unfold Rmax. destruct (Rle_dec a y); [right; left | left]; reflexivity.
    + lra.
    + constructor; [lra | exact Hall].
Qed.

Lemma fold_right_Rmax_spec (xs : list R) (b : R) :
  let m := fold_right Rmax b xs in
  (m = b \/ In m xs) /\ b <= m /\ Forall (fun p => p <= m) xs.
Proof.
  induction xs as [| y ys IH]; cbn [fold_right].
  - repeat split; [left; reflexivity | lra | constructor].
  - cbv zeta in IH. destruct IH as [Hin [Hle Hall]].
    pose proof (Rmax_l y (fold_right Rmax b ys)) as Hl.
    pose proof (Rmax_r y (fold_right Rmax b ys)) as Hr.
    repeat split.
    + destruct (Rle_lt_dec y (fold_right Rmax b ys)) as [Hy | Hy].
      * rewrite Rmax_right by exact Hy.
        destruct Hin as [Heq | Hin]; [left; exact Heq | right; right; exact Hin].
      * rewrite Rmax_left by lra. right; left; reflexivity.
    + lra.
    + constructor; [exact Hl |].
      eapply Forall_impl; [| exact Hall]. cbv beta. intros p Hp. lra.
Qed.

Lemma is_max_unique (m1 m2 : R) (l : list R) :
  is_max m1 l -> is_max m2 l -> m1 = m2.
Proof.
  intros [Hin1 Hall1] [Hin2 Hall2].
  rewrite Forall_forall in Hall1, Hall2.
  specialize (Hall1 m2 Hin2). specialize (Hall2 m1 Hin1). lra.
Qed.

(** [np.maximum.reduce] yields the greatest element of a list that has one. *)
Lemma np_maximum_reduce_is_max (x : R) (xs : list R) :
  is_max (np_maximum_reduce (x :: xs)) (x :: xs).
Proof.
  unfold np_maximum_reduce.
  destruct (fold_left_Rmax_spec xs x) as [Hin [Hle Hall]].
  split.
  - destruct Hin as [-> | Hin]; [left; reflexivity | right; exact Hin].
  - constructor; assumption.
Qed.

Lemma max_term_is_max (x : R) (xs : list R) :
  is_max (max_term (x :: xs)) (x :: xs).
Proof.
  unfold max_term. cbn [hd fold_right].
  destruct (fold_right_Rmax_spec xs x) as [Hin [Hle Hall]].
  rewrite Rmax_right by exact Hle.
  split.
  - destruct Hin as [-> | Hin]; [left; reflexivity | right; exact Hin].
  - constructor; assumption.
Qed.

Lemma np_maximum_reduce_max_term (x : R) (xs : list R) :
  np_maximum_reduce (x :: xs) = max_term (x :: xs).
Proof.
  apply (is_max_unique _ _ (x :: xs)).
  - apply np_maximum_reduce_is_max.
  - apply max_term_is_max.
Qed.

Section Combination.

Variable lognorm_cdf : R -> R -> R -> R.

(** The function of lines 54-81 is the documented blend of its eight
    failure probabilities. *)
Lemma ComputeProbabilityFailureLogNorm_blended
  (wspeed mA sA mG sG mF sF mSS sSS mSA sSA mC sC mO sO mH sH : R) :
  ComputeProbabilityFailureLogNorm lognorm_cdf wspeed
    mA sA mG sG mF sF mSS sSS mSA sSA mC sC mO sO mH sH
  = blended
      (component_cdfs lognorm_cdf wspeed
         [(mA, sA); (mG, sG); (mF, sF); (mSS, sSS); (mSA, sSA); (mC, sC); (mO, sO);
          (mH, sH)]).
Proof.
  unfold ComputeProbabilityFailureLogNorm, blended, component_cdfs.
  cbn [map fst snd]. rewrite np_maximum_reduce_max_term.
  unfold independence_term. cbn [map fold_right]. f_equal. f_equal. ring.
Qed.

Lemma p_fail_blended (c : capacity) (wspeed : R) :
  p_fail lognorm_cdf c wspeed
  = blended (component_cdfs lognorm_cdf wspeed (components_of c)).
Proof. unfold p_fail. apply ComputeProbabilityFailureLogNorm_blended. Qed.

End Combination.

(** *** Bounds and monotonicity of the blend *)

Lemma product_of_complements (F1 F2 : list R) :
  Forall2 (fun p q => 0 <= p <= q /\ q <= 1) F1 F2 ->
  0 <= fold_right Rmult 1 (map (fun q => 1 - q) F2)
    <= fold_right Rmult 1 (map (fun p => 1 - p) F1)
  /\ fold_right Rmult 1 (map (fun p => 1 - p) F1) <= 1.
Proof.
  induction 1 as [| p q l1 l2 Hpq _ IH]; cbn [map fold_right].
  - lra.
  - destruct IH as [[H0 Hle] H1]. repeat split; nra.
Qed.

Lemma Forall2_diag (A : Type) (P : A -> A -> Prop) (l : list A) :
  Forall (fun x => P x x) l -> Forall2 P l l.
Proof. induction 1; constructor; assumption. Qed.

Lemma independence_term_bounds (F : list R) :
  Forall (fun p => 0 <= p <= 1) F -> 0 <= independence_term F <= 1.
Proof.
  intros HF. unfold independence_term.
  assert (H2 : Forall2 (fun p q => 0 <= p <= q /\ q <= 1) F F).
  { apply Forall2_diag. eapply Forall_impl; [| exact HF]. cbv beta. intros p Hp. lra. }
  destruct (product_of_complements F F H2) as [[H0 _] H1]. lra.
Qed.

Lemma independence_term_monotone (F1 F2 : list R) :
  Forall2 (fun p q => 0 <= p <= q /\ q <= 1) F1 F2 ->
  independence_term F1 <= independence_term F2.
Proof.
  intros H. unfold independence_term.
  destruct (product_of_complements F1 F2 H) as [[_ Hle] _]. lra.
Qed.

Lemma max_term_bounds (F : list R) :
  Forall (fun p => 0 <= p <= 1) F -> 0 <= max_term F <= 1.
Proof.
  intros HF. destruct F as [| x xs]; [unfold max_term; cbn; lra |].
  destruct (max_term_is_max x xs) as [Hin _].
  rewrite Forall_forall in HF. apply HF, Hin.
Qed.

Lemma max_term_monotone (F1 F2 : list R) :
  Forall2 (fun p q => 0 <= p <= q /\ q <= 1) F1 F2 -> max_term F1 <= max_term F2.
Proof.
  intros H. destruct H as [| p q l1 l2 Hpq H]; [unfold max_term; cbn; lra |].
  destruct (max_term_is_max p l1) as [Hin1 _].
  destruct (max_term_is_max q l2) as [_ Hall2].
  assert (Hstep : forall m, In m (p :: l1) -> exists m', In m' (q :: l2) /\ m <= m').
  { intros m [<- | Hm].
    - exists q. split; [left; reflexivity | lra].
    - clear - H Hm. induction H as [| a b l1 l2 Hab _ IH].
      + destruct Hm.
      + destruct Hm as [<- | Hm].
        * exists b. split; [right; left; reflexivity | lra].
        * destruct (IH Hm) as [m' [[<- | Hin] Hle]].
          -- exists q. split; [left; reflexivity | exact Hle].
          -- exists m'. split; [right; right; exact Hin | exact Hle]. }
  destruct (Hstep _ Hin1) as [m' [Hin' Hle]].
  rewrite Forall_forall in Hall2. specialize (Hall2 m' Hin'). lra.
Qed.

Lemma blended_bounds (F : list R) :
  Forall (fun p => 0 <= p <= 1) F -> 0 <= blended F <= 1.
Proof.
  intros HF. unfold blended.
  pose proof (independence_term_bounds F HF).
  pose proof (max_term_bounds F HF). lra.
Qed.

Lemma blended_monotone (F1 F2 : list R) :
  Forall2 (fun p q => 0 <= p <= q /\ q <= 1) F1 F2 -> blended F1 <= blended F2.
Proof.
  intros H. unfold blended.
  pose proof (independence_term_monotone F1 F2 H).
  pose proof (max_term_monotone F1 F2 H). lra.
Qed.

(** *** The stand-in distribution function *)

Lemma loglogistic_cdf_interior (x s loc : R) :
  0 < x - loc -> 0 < loglogistic_cdf x s loc < 1.
Proof.
  intros Hx. unfold loglogistic_cdf.
  destruct (Rle_dec (x - loc) 0); [lra |].
  pose proof (exp_pos (- (ln (x - loc) / s))) as He.
  assert (Hd : 0 < 1 + exp (- (ln (x - loc) / s))) by lra.
  split.
  - apply Rdiv_lt_0_compat; lra.
  - apply (Rmult_lt_reg_r (1 + exp (- (ln (x - loc) / s)))); [exact Hd |].
    unfold Rdiv. rewrite Rmult_assoc, Rinv_l by lra. lra.
Qed.

Lemma loglogistic_cdf_range (x s loc : R) :
  0 < s -> 0 <= loglogistic_cdf x s loc <= 1.
Proof.
  intros _. destruct (Rle_dec (x - loc) 0) as [Hx | Hx].
  - unfold loglogistic_cdf. destruct (Rle_dec (x - loc) 0); [lra | contradiction].
  - pose proof (loglogistic_cdf_interior x s loc). lra.
Qed.

Lemma loglogistic_cdf_monotone (s loc x1 x2 : R) :
  0 < s -> x1 <= x2 -> loglogistic_cdf x1 s loc <= loglogistic_cdf x2 s loc.
Proof.
  intros Hs Hx.
  destruct (Rle_dec (x1 - loc) 0) as [H1 | H1].
  - unfold loglogistic_cdf at 1. destruct (Rle_dec (x1 - loc) 0); [| contradiction].
    apply loglogistic_cdf_range, Hs.
  - unfold loglogistic_cdf.
    destruct (Rle_dec (x1 - loc) 0); [contradiction |].
    destruct (Rle_dec (x2 - loc) 0); [lra |].
    assert (Hln : ln (x1 - loc) <= ln (x2 - loc)).
    { destruct Hx as [Hlt | ->]; [| lra].
      left. apply ln_increasing; lra. }
    assert (Hq : - (ln (x2 - loc) / s) <= - (ln (x1 - loc) / s)).
    { apply Ropp_le_contravar. unfold Rdiv.
      apply Rmult_le_compat_r; [left; apply Rinv_0_lt_compat, Hs | exact Hln]. }
    assert (He : exp (- (ln (x2 - loc) / s)) <= exp (- (ln (x1 - loc) / s))).
    { destruct Hq as [Hlt | ->]; [left; apply exp_increasing, Hlt | lra]. }
    pose proof (exp_pos (- (ln (x2 - loc) / s))) as Hp.
    unfold Rdiv. rewrite !Rmult_1_l.
    apply Rinv_le_contravar; lra.
Qed.

(** Eight equal probabilities strictly inside the unit interval: the two
    terms of the blend differ. *)
Lemma identical_terms_differ (q : R) :
  0 < q < 1 ->
  independence_term [q; q; q; q; q; q; q; q] <> max_term [q; q; q; q; q; q; q; q].
Proof.
  intros Hq.
  assert (Hmax : max_term [q; q; q; q; q; q; q; q] = q).
  { destruct (max_term_is_max q [q; q; q; q; q; q; q]) as [Hin _].
    cbn [In] in Hin. repeat (destruct Hin as [Hin | Hin]; [symmetry; exact Hin |]).
    destruct Hin. }
  rewrite Hmax. unfold independence_term. cbn [map fold_right].
  change ((1 - q) * ((1 - q) * ((1 - q) * ((1 - q) * ((1 - q) * ((1 - q)
            * ((1 - q) * ((1 - q) * 1))))))))
    with ((1 - q) * (1 - q) ^ 7).
  assert (H7 : 0 <= (1 - q) ^ 7 < 1) by (apply pow_lt_1_compat; [lra | lia]).
  nra.
Qed.

(** C5.  For every wind speed and every eight (mean, stddev) pairs, the
    probability of failure is the blend
    [((1 - product of (1 - F_i)) + max of F_i) / 2] of the eight values
    [F_i = lognorm.cdf(v, mean_i, stddev_i)]; it is neither of its two terms
    whenever they differ. *)
Theorem ComputeProbabilityFailureLogNorm_is_the_blend
  (lognorm_cdf : R -> R -> R -> R)
  (wspeed mA sA mG sG mF sF mSS sSS mSA sSA mC sC mO sO mH sH : R) :
  let F := component_cdfs lognorm_cdf wspeed
             [(mA, sA); (mG, sG); (mF, sF); (mSS, sSS); (mSA, sSA); (mC, sC); (mO, sO);
              (mH, sH)] in
  let p := ComputeProbabilityFailureLogNorm lognorm_cdf wspeed
             mA sA mG sG mF sF mSS sSS mSA sSA mC sC mO sO mH sH in
  p = (independence_term F + max_term F) / 2
  /\ is_max (max_term F) F
  /\ (independence_term F <> max_term F ->
      p <> independence_term F /\ p <> max_term F).
Proof.
  cbv zeta. rewrite ComputeProbabilityFailureLogNorm_blended.
  split; [reflexivity |]. split.
  - unfold component_cdfs. cbn [map]. apply max_term_is_max.
  - unfold blended. intros Hne. split; intros Heq; apply Hne; lra.
Qed.

(** Eight components with mean 100 and standard deviation 10, at wind
    speed 100, under the stand-in distribution function: the probability of
    failure is neither the independence term nor the maximum. *)
Lemma ComputeProbabilityFailureLogNorm_is_the_blend_witness :
  let F := component_cdfs loglogistic_cdf 100
             [(100, 10); (100, 10); (100, 10); (100, 10); (100, 10); (100, 10);
              (100, 10); (100, 10)] in
  let p := ComputeProbabilityFailureLogNorm loglogistic_cdf 100
             100 10 100 10 100 10 100 10 100 10 100 10 100 10 100 10 in
  p <> independence_term F /\ p <> max_term F.
Proof.
  cbv zeta.
  apply (proj2 (proj2 (ComputeProbabilityFailureLogNorm_is_the_blend loglogistic_cdf 100
                         100 10 100 10 100 10 100 10 100 10 100 10 100 10 100 10))).
  unfold component_cdfs. cbn [map fst snd].
  apply identical_terms_differ, loglogistic_cdf_interior. lra.
Defined.

(** *** Under the laws of a distribution function *)

Section DistributionFunction.

Variable lognorm_cdf : R -> R -> R -> R.

(** For a positive shape, [lognorm.cdf] takes its values in [0, 1] and does
    not decrease with its first argument. *)
Hypothesis cdf_range :
  forall x s loc : R, 0 < s -> 0 <= lognorm_cdf x s loc <= 1.
Hypothesis cdf_monotone :
  forall s loc x1 x2 : R, 0 < s -> x1 <= x2 -> lognorm_cdf x1 s loc <= lognorm_cdf x2 s loc.

Lemma component_cdfs_range (wspeed : R) (components : list (R * R)) :
  valid_components components ->
  Forall (fun p => 0 <= p <= 1) (component_cdfs lognorm_cdf wspeed components).
Proof.
  unfold valid_components, component_cdfs.
  induction 1 as [| ms l Hms _ IH]; cbn [map]; constructor; [| exact IH].
  apply cdf_range, Hms.
Qed.

Lemma component_cdfs_monotone (v1 v2 : R) (components : list (R * R)) :
  valid_components components -> v1 <= v2 ->
  Forall2 (fun p q => 0 <= p <= q /\ q <= 1)
    (component_cdfs lognorm_cdf v1 components) (component_cdfs lognorm_cdf v2 components).
Proof.
  unfold valid_components, component_cdfs. intros Hv Hle.
  induction Hv as [| ms l Hms _ IH]; cbn [map]; constructor; [| exact IH].
  pose proof (cdf_range v1 (fst ms) (snd ms) Hms).
  pose proof (cdf_range v2 (fst ms) (snd ms) Hms).
  pose proof (cdf_monotone (fst ms) (snd ms) v1 v2 Hms Hle). lra.
Qed.

(** C7.  For all valid inputs, that is any wind speed and any eight
    (mean, stddev) pairs with positive means, the probability of failure
    lies between 0 and 1. *)
Theorem probability_of_failure_in_unit_interval
  (wspeed mA sA mG sG mF sF mSS sSS mSA sSA mC sC mO sO mH sH : R) :
  valid_components
    [(mA, sA); (mG, sG); (mF, sF); (mSS, sSS); (mSA, sSA); (mC, sC); (mO, sO); (mH, sH)] ->
  0 <= ComputeProbabilityFailureLogNorm lognorm_cdf wspeed
         mA sA mG sG mF sF mSS sSS mSA sSA mC sC mO sO mH sH <= 1.
Proof.
  intros Hv. rewrite ComputeProbabilityFailureLogNorm_blended.
  apply blended_bounds, component_cdfs_range, Hv.
Qed.

(** C6 (amended).  For every fixed eight (mean, stddev) pairs with
    positive means and every two wind speeds [v1 < v2], the probability of
    failure at [v1] is at most the one at [v2].  (A mean that is not
    positive is outside the domain of the shape of [lognorm.cdf]: see
    [Float64SweepFacts] below.) *)
Theorem probability_of_failure_monotone
  (mA sA mG sG mF sF mSS sSS mSA sSA mC sC mO sO mH sH v1 v2 : R) :
  valid_components
    [(mA, sA); (mG, sG); (mF, sF); (mSS, sSS); (mSA, sSA); (mC, sC); (mO, sO); (mH, sH)] ->
  v1 < v2 ->
  ComputeProbabilityFailureLogNorm lognorm_cdf v1
    mA sA mG sG mF sF mSS sSS mSA sSA mC sC mO sO mH sH
  <= ComputeProbabilityFailureLogNorm lognorm_cdf v2
       mA sA mG sG mF sF mSS sSS mSA sSA mC sC mO sO mH sH.
Proof.
  intros Hv Hlt. rewrite !ComputeProbabilityFailureLogNorm_blended.
  apply blended_monotone, component_cdfs_monotone; [exact Hv | lra].
Qed.

(** The sweep of lines 787-789 has 121 steps, and along it the curve of a
    structure with valid components never decreases. *)
Lemma fragility_curve_steps (c : capacity) (wspeed : nat) (p : R) :
  In (wspeed, p) (fragility_curve lognorm_cdf c) <->
  (wspeed <= 120)%nat /\ p = p_fail lognorm_cdf c (INR wspeed).
Proof.
  unfold fragility_curve. rewrite in_map_iff. split.
  - intros [w [Heq Hin]]. apply in_seq in Hin. inversion Heq; subst. split; [lia | reflexivity].
  - intros [Hle ->]. exists wspeed. split; [reflexivity | apply in_seq; lia].
Qed.

Lemma fragility_curve_nondecreasing (c : capacity) (i j : nat) :
  valid_components (components_of c) -> (i <= j)%nat ->
  p_fail lognorm_cdf c (INR i) <= p_fail lognorm_cdf c (INR j).
Proof.
  intros Hv Hij. rewrite !p_fail_blended.
  apply blended_monotone, component_cdfs_monotone; [exact Hv | apply le_INR, Hij].
Qed.

End DistributionFunction.

Lemma valid_identical_components :
  valid_components
    [(100, 10); (100, 10); (100, 10); (100, 10); (100, 10); (100, 10); (100, 10);
     (100, 10)].
Proof. unfold valid_components. repeat constructor; cbn [fst]; lra. Qed.

(** The bounds at the documented scenario, under the stand-in distribution
    function. *)
Lemma probability_of_failure_in_unit_interval_witness :
  0 <= ComputeProbabilityFailureLogNorm loglogistic_cdf 100
         100 10 100 10 100 10 100 10 100 10 100 10 100 10 100 10 <= 1.
Proof.
  exact (probability_of_failure_in_unit_interval loglogistic_cdf loglogistic_cdf_range
           100 100 10 100 10 100 10 100 10 100 10 100 10 100 10 100 10
           valid_identical_components).
Defined.

(** Monotonicity between the wind speeds 90 and 100, same scenario. *)
Lemma probability_of_failure_monotone_witness :
  ComputeProbabilityFailureLogNorm loglogistic_cdf 90
    100 10 100 10 100 10 100 10 100 10 100 10 100 10 100 10
  <= ComputeProbabilityFailureLogNorm loglogistic_cdf 100
       100 10 100 10 100 10 100 10 100 10 100 10 100 10 100 10.
Proof.
  assert (Hlt : 90 < 100) by lra.
  exact (probability_of_failure_monotone loglogistic_cdf loglogistic_cdf_range
           loglogistic_cdf_monotone
           100 10 100 10 100 10 100 10 100 10 100 10 100 10 100 10 90 100
           valid_identical_components Hlt).
Defined.

(* ================================================================== *)
(** * Further properties of the code                                  *)
(* ================================================================== *)

(** ** Score lookups and reduction factors *)

Lemma NoDup_map_injective (A B : Type) (g : A -> B) (l : list A) (x y : A) :
  NoDup (map g l) -> In x l -> In y l -> g x = g y -> x = y.
Proof.
  induction l as [| a l IH]; cbn [map In]; intros Hnd Hx Hy Heq; [destruct Hx |].
  inversion Hnd as [| b m Hnotin Hnd']; subst.
  destruct Hx as [-> | Hx], Hy as [-> | Hy].
  - reflexivity.
  - exfalso. apply Hnotin. rewrite Heq. apply in_map, Hy.
  - exfalso. apply Hnotin. rewrite <- Heq. apply in_map, Hx.
  - apply IH; assumption.
Qed.

(** X1.  The lookup [loc[label, column]] raises [KeyError] exactly for a
    label that no row carries, and for the label of a row it returns the
    cell of that row. *)
Theorem loc_lookup (label : string) (column : MCE.row -> Py.obj) :
  (MCE.loc label column = Py.Raise Py.KeyError
   <-> ~ In label (map MCE.ROW_LABELS MCE.df_MCE_corrosion_scores))
  /\ (forall r : MCE.row,
         In r MCE.df_MCE_corrosion_scores -> MCE.ROW_LABELS r = label ->
         MCE.loc label column = Py.Return (column r)).
Proof.
  unfold MCE.loc.
  destruct (find (fun r => String.eqb (MCE.ROW_LABELS r) label)
              MCE.df_MCE_corrosion_scores) as [r0 |] eqn:Hfind.
  - apply find_some in Hfind. destruct Hfind as [Hin0 Hlab0].
    apply String.eqb_eq in Hlab0. split.
    + split; [discriminate |]. intros Hnot. exfalso. apply Hnot.
      rewrite <- Hlab0. apply in_map, Hin0.
    + intros r Hin Hlab. f_equal. f_equal.
      apply (NoDup_map_injective _ _ MCE.ROW_LABELS MCE.df_MCE_corrosion_scores);
        [apply table_labels_distinct | exact Hin0 | exact Hin | congruence].
  - split.
    + split; [| reflexivity]. intros _ Hin. apply in_map_iff in Hin.
      destruct Hin as [r [Hlab Hin]].
      pose proof (find_none _ _ Hfind r Hin) as Hno. cbv beta in Hno.
      rewrite Hlab, String.eqb_refl in Hno. discriminate.
    + intros r Hin Hlab.
      pose proof (find_none _ _ Hfind r Hin) as Hno. cbv beta in Hno.
      rewrite Hlab, String.eqb_refl in Hno. discriminate.
Qed.

(** The cell of the row labelled [Lake], in the wetland column. *)
Lemma loc_lookup_witness :
  MCE.loc "Lake" MCE.WETLAND_TYPE = Py.Return (Py.int 1).
Proof.
  apply (proj2 (loc_lookup "Lake" MCE.WETLAND_TYPE)
           (MCE.mk_row "Lake" (Py.str MCE.marker) (Py.int 1) (Py.str MCE.marker)
              (Py.str MCE.marker) (Py.str MCE.marker) (Py.str MCE.marker))).
  - unfold MCE.df_MCE_corrosion_scores. cbn [In].
    do 8 right. left. reflexivity.
  - reflexivity.
Defined.

(** Every int of the three score columns the main loop reads is 0, 1 or 2. *)
Lemma table_scores_in_range :
  Forall (fun r =>
            score_in_range (MCE.WETLAND_TYPE r) /\ score_in_range (MCE.AGRICULTURE r)
            /\ score_in_range (MCE.ATMOSPHERIC_CORROSION r))
         MCE.df_MCE_corrosion_scores.
Proof.
  unfold MCE.df_MCE_corrosion_scores.
  repeat (apply Forall_cons; [cbn; repeat split; try exact I; lia |]).
  apply Forall_nil.
Qed.

Lemma loc_returns_a_cell (label : string) (column : MCE.row -> Py.obj) (o : Py.obj) :
  MCE.loc label column = Py.Return o ->
  exists r, In r MCE.df_MCE_corrosion_scores /\ column r = o.
Proof.
  unfold MCE.loc.
  destruct (find (fun r => String.eqb (MCE.ROW_LABELS r) label)
              MCE.df_MCE_corrosion_scores) as [r0 |] eqn:Hfind; [| discriminate].
  intros Heq. injection Heq as Heq. apply find_some in Hfind.
  exists r0. split; [apply Hfind | exact Heq].
Qed.

Section StructureCalculationsMore.

Variables r_spl r_cor : R.

(** What a pass that returns has computed: the inverse reading of
    [structure_dependent_calculations_ints]. *)
Lemma structure_dependent_calculations_inversion (a : asset) (f : factors) :
  structure_dependent_calculations r_spl r_cor a = Py.Return f ->
  exists x y z : Z,
    MCE.loc (AGRICULTURE a) MCE.AGRICULTURE = Py.Return (Py.int x)
    /\ MCE.loc (WETLAND_TYPE a) MCE.WETLAND_TYPE = Py.Return (Py.int y)
    /\ MCE.loc (CORROSION_ZONE a) MCE.ATMOSPHERIC_CORROSION = Py.Return (Py.int z)
    /\ f = mk_factors (- OUTAGE_DESIGNLIFE_MOD a)
             (Rmin (SPLICES a / 5 * r_spl) r_spl)
             (WEAR_FATIGUE_RED_FAC a)
             (IZR (Z.max x y) / 2 * r_cor)
             (IZR (Z.max y z) / 2 * r_cor).
Proof.
  intros Hret.
  destruct (MCE.loc (AGRICULTURE a) MCE.AGRICULTURE) as [[x | s] | e] eqn:Ha.
  - destruct (MCE.loc (WETLAND_TYPE a) MCE.WETLAND_TYPE) as [[y | s] | e] eqn:Hw.
    + destruct (MCE.loc (CORROSION_ZONE a) MCE.ATMOSPHERIC_CORROSION)
        as [[z | s] | e] eqn:Hc.
      * exists x, y, z. repeat split.
        rewrite (structure_dependent_calculations_ints r_spl r_cor a x y z Ha Hw Hc)
          in Hret.
        injection Hret as <-. reflexivity.
      * unfold structure_dependent_calculations in Hret. rewrite Ha, Hw, Hc in Hret.
        cbn [Py.bind Py.max Py.gt] in Hret.
        destruct (Py.float (if (x <? y)%Z then Py.int y else Py.int x));
          cbn [Py.bind] in Hret; discriminate.
      * unfold structure_dependent_calculations in Hret. rewrite Ha, Hw, Hc in Hret.
        discriminate.
    + unfold structure_dependent_calculations in Hret. rewrite Ha, Hw in Hret.
      cbn [Py.bind] in Hret.
      destruct (MCE.loc (CORROSION_ZONE a) MCE.ATMOSPHERIC_CORROSION);
        cbn [Py.bind Py.max Py.gt] in Hret; discriminate.
    + unfold structure_dependent_calculations in Hret. rewrite Ha, Hw in Hret.
      discriminate.
  - pose proof (not_applicable_land_use_raises r_spl r_cor a s Ha) as Hr.
    rewrite Hret in Hr. destruct Hr.
  - unfold structure_dependent_calculations in Hret. rewrite Ha in Hret. discriminate.
Qed.

(** X2.  The structure-dependent calculations return factors exactly when
    the three labels of the structure carry int scores in their columns;
    in every other case the pass raises. *)
Theorem structure_dependent_calculations_returns_iff (a : asset) :
  (exists f, structure_dependent_calculations r_spl r_cor a = Py.Return f)
  <-> (exists x y z : Z,
          MCE.loc (AGRICULTURE a) MCE.AGRICULTURE = Py.Return (Py.int x)
          /\ MCE.loc (WETLAND_TYPE a) MCE.WETLAND_TYPE = Py.Return (Py.int y)
          /\ MCE.loc (CORROSION_ZONE a) MCE.ATMOSPHERIC_CORROSION
             = Py.Return (Py.int z)).
Proof.
  split.
  - intros [f Hf].
    destruct (structure_dependent_calculations_inversion a f Hf)
      as [x [y [z [Ha [Hw [Hc _]]]]]].
    exists x, y, z. repeat split; assumption.
  - intros [x [y [z [Ha [Hw Hc]]]]]. eexists.
    apply (structure_dependent_calculations_ints r_spl r_cor a x y z); assumption.
Qed.

Lemma score_max_cases (x y : Z) :
  (0 <= x <= 2)%Z -> (0 <= y <= 2)%Z ->
  IZR (Z.max x y) = 0 \/ IZR (Z.max x y) = 1 \/ IZR (Z.max x y) = 2.
Proof.
  intros Hx Hy.
  assert (H : (Z.max x y = 0 \/ Z.max x y = 1 \/ Z.max x y = 2)%Z) by lia.
  destruct H as [-> | [-> | ->]]; [left | right; left | right; right]; reflexivity.
Qed.

Lemma loc_score_in_range (label : string) (column : MCE.row -> Py.obj) (x : Z) :
  Forall (fun r => score_in_range (column r)) MCE.df_MCE_corrosion_scores ->
  MCE.loc label column = Py.Return (Py.int x) -> (0 <= x <= 2)%Z.
Proof.
  intros Hall Hloc. destruct (loc_returns_a_cell label column _ Hloc) as [r [Hin Hcell]].
  rewrite Forall_forall in Hall. specialize (Hall r Hin). rewrite Hcell in Hall.
  exact Hall.
Qed.

(** X3.  When the structure-dependent calculations return, the outage
    factor is the negated modifier, the wear/fatigue factor is the input
    field, and each corrosivity factor is 0, [r_cor / 2] or [r_cor]; so for
    [r_cor] not negative both lie between 0 and [r_cor]. *)
Theorem reduction_factors_of_a_pass (a : asset) (f : factors) :
  structure_dependent_calculations r_spl r_cor a = Py.Return f ->
  outage_density_red_factor f = - OUTAGE_DESIGNLIFE_MOD a
  /\ wear_fatigue_red_factor f = WEAR_FATIGUE_RED_FAC a
  /\ (soil_corrosivity_red_factor f = 0
      \/ soil_corrosivity_red_factor f = r_cor / 2
      \/ soil_corrosivity_red_factor f = r_cor)
  /\ (atmospheric_corrosivity_red_factor f = 0
      \/ atmospheric_corrosivity_red_factor f = r_cor / 2
      \/ atmospheric_corrosivity_red_factor f = r_cor)
  /\ (0 <= r_cor ->
      0 <= soil_corrosivity_red_factor f <= r_cor
      /\ 0 <= atmospheric_corrosivity_red_factor f <= r_cor).
Proof.
  intros Hret.
  destruct (structure_dependent_calculations_inversion a f Hret)
    as [x [y [z [Ha [Hw [Hc ->]]]]]].
  cbn [outage_density_red_factor wear_fatigue_red_factor soil_corrosivity_red_factor
       atmospheric_corrosivity_red_factor].
  assert (Hx : (0 <= x <= 2)%Z).
  { apply (loc_score_in_range (AGRICULTURE a) MCE.AGRICULTURE); [| exact Ha].
    eapply Forall_impl; [| exact table_scores_in_range]. cbv beta. tauto. }
  assert (Hy : (0 <= y <= 2)%Z).
  { apply (loc_score_in_range (WETLAND_TYPE a) MCE.WETLAND_TYPE); [| exact Hw].
    eapply Forall_impl; [| exact table_scores_in_range]. cbv beta. tauto. }
  assert (Hz : (0 <= z <= 2)%Z).
  { apply (loc_score_in_range (CORROSION_ZONE a) MCE.ATMOSPHERIC_CORROSION); [| exact Hc].
    eapply Forall_impl; [| exact table_scores_in_range]. cbv beta. tauto. }
  pose proof (score_max_cases x y Hx Hy) as Hs.
  pose proof (score_max_cases y z Hy Hz) as Hat.
  split; [reflexivity |]. split; [reflexivity |].
  split; [destruct Hs as [-> | [-> | ->]]; [left | right; left | right; right]; lra |].
  split; [destruct Hat as [-> | [-> | ->]]; [left | right; left | right; right]; lra |].
  intros Hr. split.
  - destruct Hs as [-> | [-> | ->]]; lra.
  - destruct Hat as [-> | [-> | ->]]; lra.
Qed.

(** X4.  When the structure-dependent calculations return, the
    splice-density factor is the ramp [SPLICES / 5 * r_spl] capped at
    [r_spl]: for [r_spl] not negative it equals the ramp up to five splices
    and [r_spl] from five splices on, and it never exceeds [r_spl]. *)
Theorem splice_density_of_a_pass (a : asset) (f : factors) :
  structure_dependent_calculations r_spl r_cor a = Py.Return f ->
  0 <= r_spl ->
  splice_density_red_factor f <= r_spl
  /\ (SPLICES a <= 5 -> splice_density_red_factor f = SPLICES a / 5 * r_spl)
  /\ (5 <= SPLICES a -> splice_density_red_factor f = r_spl)
  /\ (0 <= SPLICES a -> 0 <= splice_density_red_factor f).
Proof.
  intros Hret Hr.
  destruct (structure_dependent_calculations_inversion a f Hret)
    as [x [y [z [_ [_ [_ ->]]]]]].
  cbn [splice_density_red_factor]. unfold Rmin.
  destruct (Rle_dec (SPLICES a / 5 * r_spl) r_spl) as [Hle | Hgt].
  - repeat split; try lra; intros H; nra.
  - repeat split; try lra; intros H; nra.
Qed.

End StructureCalculationsMore.

(** The factors of that structure's pass, with [r_spl = 1/10] and
    [r_cor = 1/5]. *)
Lemma asset_seven_splices_factors :
  structure_dependent_calculations (1 / 10) (1 / 5) asset_seven_splices
  = Py.Return
      (mk_factors (- (1 / 10)) (Rmin (7 / 5 * (1 / 10)) (1 / 10)) (1 / 4)
         (IZR (Z.max 2 1) / 2 * (1 / 5)) (IZR (Z.max 1 2) / 2 * (1 / 5))).
Proof.
  apply (structure_dependent_calculations_ints (1 / 10) (1 / 5) asset_seven_splices 2 1 2);
    reflexivity.
Qed.

Lemma reduction_factors_of_a_pass_witness :
  exists f,
    structure_dependent_calculations (1 / 10) (1 / 5) asset_seven_splices = Py.Return f
    /\ outage_density_red_factor f = - (1 / 10)
    /\ 0 <= soil_corrosivity_red_factor f <= 1 / 5
    /\ 0 <= atmospheric_corrosivity_red_factor f <= 1 / 5.
Proof.
  eexists. split; [exact asset_seven_splices_factors |].
  assert (Hr : 0 <= 1 / 5) by lra.
  pose proof (reduction_factors_of_a_pass (1 / 10) (1 / 5) asset_seven_splices _
                asset_seven_splices_factors) as [Ho [_ [_ [_ Hb]]]].
  split; [exact Ho |]. exact (Hb Hr).
Defined.

Lemma splice_density_of_a_pass_witness :
  exists f,
    structure_dependent_calculations (1 / 10) (1 / 5) asset_seven_splices = Py.Return f
    /\ splice_density_red_factor f = 1 / 10.
Proof.
  eexists. split; [exact asset_seven_splices_factors |].
  assert (Hr : 0 <= 1 / 10) by lra.
  assert (H5 : 5 <= SPLICES asset_seven_splices) by (cbn; lra).
  pose proof (splice_density_of_a_pass (1 / 10) (1 / 5) asset_seven_splices _
                asset_seven_splices_factors Hr) as [_ [_ [Hcap _]]].
  exact (Hcap H5).
Defined.

(** ** Design-life adjustment: bounds, sign of the outage factor, materials *)

Lemma sum_of_squares_nonneg (xs : list R) : 0 <= sum_of_squares xs.
Proof.
  induction xs as [| x xs IH]; cbn [sum_of_squares fold_right]; [lra |].
  fold (sum_of_squares xs). pose proof (pow2_ge_0 x). lra.
Qed.

Lemma sqrt_lt_1_iff (x : R) : 0 <= x -> (sqrt x < 1 <-> x < 1).
Proof.
  intros Hx. pose proof (sqrt_pos x) as Hp. pose proof (sqrt_sqrt x Hx) as Hs.
  split; intros H; nra.
Qed.

Lemma sqrt_eq_0_iff (x : R) : 0 <= x -> (sqrt x = 0 <-> x = 0).
Proof.
  intros Hx. split.
  - intros H. apply sqrt_eq_0; assumption.
  - intros ->. apply sqrt_0.
Qed.

Section Adjustment.

Variable constants : nat -> string -> R.
Variable AGE_YEARS : R.

(** With an outage factor that is not negative, every theme of the STEEL
    dispatch folds its factors and the outage factor in one square root. *)
Lemma DLife_STEEL_adjustment_one_root (f : factors) (entry : string) :
  0 <= outage_density_red_factor f ->
  triple_adjustment (DLife_STEEL constants AGE_YEARS f entry)
  = 1 - sqrt (sum_of_squares (theme_factors f entry) + outage_density_red_factor f ^ 2).
Proof.
  intros Ho. unfold DLife_STEEL, theme_factors.
  repeat match goal with
         | |- context [String.eqb entry ?s] => destruct (String.eqb entry s)
         end;
    unfold DLife_WoodSteel_Conductor, DLife_WoodSteel_Anchor, DLife_WoodSteel_Guy,
      DLife_WoodSteel_OGW, DLife_WoodSteel_HI, DLife_WoodSteel_StructureFoundation,
      DLife_WoodSteel_AllOthers, triple_adjustment, sum_of_squares;
    cbn [fst snd fold_right];
    (destruct (Rlt_dec (outage_density_red_factor f) 0); [lra |]);
    rewrite ?Rplus_0_r, ?Rplus_assoc; reflexivity.
Qed.

(** With a negative outage factor, every theme but OGW and
    HARDWARE_INSUL multiplies the whole of one minus the root. *)
Lemma DLife_STEEL_adjustment_product (f : factors) (entry : string) :
  entry <> "OGW_CD" -> entry <> "HARDWARE_INSUL_CD" ->
  0 <= soil_corrosivity_red_factor f -> 0 <= atmospheric_corrosivity_red_factor f ->
  outage_density_red_factor f < 0 ->
  triple_adjustment (DLife_STEEL constants AGE_YEARS f entry)
  = (1 - sqrt (sum_of_squares (theme_factors f entry)))
    * (1 - outage_density_red_factor f).
Proof.
  intros Hogw Hhi Hs Ha Ho. unfold DLife_STEEL, theme_factors.
  destruct (String.eqb entry "CONDUCTOR_CD").
  { unfold DLife_WoodSteel_Conductor, triple_adjustment, sum_of_squares.
    cbn [fst snd fold_right].
    destruct (Rlt_dec (outage_density_red_factor f) 0); [| lra].
    rewrite ?Rplus_0_r, ?Rplus_assoc; reflexivity. }
  destruct (String.eqb entry "ANCHOR_CD").
  { unfold DLife_WoodSteel_Anchor, triple_adjustment. cbn [fst snd].
    destruct (Rlt_dec (outage_density_red_factor f) 0); [| lra].
    change (sqrt (sum_of_squares [soil_corrosivity_red_factor f]))
      with (RSS [soil_corrosivity_red_factor f]).
    rewrite RSS_single by exact Hs. reflexivity. }
  destruct (String.eqb entry "GUY_CD").
  { unfold DLife_WoodSteel_Guy, triple_adjustment. cbn [fst snd].
    destruct (Rlt_dec (outage_density_red_factor f) 0); [| lra].
    change (sqrt (sum_of_squares [atmospheric_corrosivity_red_factor f]))
      with (RSS [atmospheric_corrosivity_red_factor f]).
    rewrite RSS_single by exact Ha. reflexivity. }
  destruct (String.eqb_spec entry "OGW_CD"); [contradiction |].
  destruct (String.eqb_spec entry "HARDWARE_INSUL_CD"); [contradiction |].
  destruct (String.eqb entry "FOUNDATION_CD").
  { unfold DLife_WoodSteel_StructureFoundation, triple_adjustment, sum_of_squares.
    cbn [fst snd fold_right].
    destruct (Rlt_dec (outage_density_red_factor f) 0); [| lra].
    rewrite ?Rplus_0_r, ?Rplus_assoc; reflexivity. }
  unfold DLife_WoodSteel_AllOthers, triple_adjustment, sum_of_squares.
  cbn [fst snd fold_right].
  destruct (Rlt_dec (outage_density_red_factor f) 0); [| lra].
  rewrite ?Rplus_0_r, ?Rplus_assoc; reflexivity.
Qed.

(** X5.  With an outage factor that is not negative, the design-life
    adjustment of every theme of the STEEL dispatch is at most 1; it is
    positive exactly when the squares of the factors of the theme and of
    the outage factor sum to less than 1, and it is 1 exactly when they
    are all zero. *)
Theorem adjustment_with_nonnegative_outage (f : factors) (entry : string) :
  0 <= outage_density_red_factor f ->
  let adjustment := triple_adjustment (DLife_STEEL constants AGE_YEARS f entry) in
  let squares := sum_of_squares (theme_factors f entry) + outage_density_red_factor f ^ 2 in
  adjustment <= 1
  /\ (0 < adjustment <-> squares < 1)
  /\ (adjustment = 1 <-> squares = 0).
Proof.
  intros Ho. cbv zeta. rewrite DLife_STEEL_adjustment_one_root by exact Ho.
  set (sq := sum_of_squares (theme_factors f entry) + outage_density_red_factor f ^ 2).
  assert (Hsq : 0 <= sq).
  { unfold sq. pose proof (sum_of_squares_nonneg (theme_factors f entry)).
    pose proof (pow2_ge_0 (outage_density_red_factor f)). lra. }
  pose proof (sqrt_pos sq) as Hp.
  pose proof (sqrt_lt_1_iff sq Hsq) as H1.
  pose proof (sqrt_eq_0_iff sq Hsq) as H0.
  split; [lra |]. split; split; intros H.
  - apply H1. lra.
  - apply H1 in H. lra.
  - apply H0. lra.
  - apply H0 in H. lra.
Qed.

(** X6.  For every theme of the STEEL dispatch but OGW and HARDWARE_INSUL,
    with corrosivity factors that are not negative and factors whose
    squares sum to at most 1, an outage factor [- o] gives a strictly
    greater design-life adjustment than the outage factor [o > 0]. *)
Theorem negative_outage_extends_life (f : factors) (entry : string) (o : R) :
  entry <> "OGW_CD" -> entry <> "HARDWARE_INSUL_CD" ->
  0 <= soil_corrosivity_red_factor f -> 0 <= atmospheric_corrosivity_red_factor f ->
  sum_of_squares (theme_factors f entry) <= 1 ->
  0 < o ->
  triple_adjustment (DLife_STEEL constants AGE_YEARS (with_outage f o) entry)
  < triple_adjustment (DLife_STEEL constants AGE_YEARS (with_outage f (- o)) entry).
Proof.
  intros Hogw Hhi Hs Ha Hsq Ho.
  rewrite (DLife_STEEL_adjustment_one_root (with_outage f o) entry)
    by (cbn [with_outage outage_density_red_factor]; lra).
  rewrite (DLife_STEEL_adjustment_product (with_outage f (- o)) entry)
    by (try assumption; cbn [with_outage outage_density_red_factor
                               soil_corrosivity_red_factor
                               atmospheric_corrosivity_red_factor]; lra).
  change (theme_factors (with_outage f o) entry) with (theme_factors f entry).
  change (theme_factors (with_outage f (- o)) entry) with (theme_factors f entry).
  cbn [with_outage outage_density_red_factor].
  set (S := sum_of_squares (theme_factors f entry)) in *.
  pose proof (sum_of_squares_nonneg (theme_factors f entry)) as HS. fold S in HS.
  assert (Hr1 : sqrt S <= 1).
  { rewrite <- sqrt_1. apply sqrt_le_1_alt. exact Hsq. }
  assert (Hlt : sqrt S < sqrt (S + o ^ 2)).
  { apply sqrt_lt_1_alt. split; [exact HS |]. nra. }
  pose proof (sqrt_pos S). nra.
Qed.

End Adjustment.

Lemma adjustment_with_nonnegative_outage_witness :
  triple_adjustment (DLife_STEEL sample_constants 30 no_reduction "GUY_CD") = 1.
Proof.
  assert (Ho : 0 <= outage_density_red_factor no_reduction) by (cbn; lra).
  apply (proj2 (proj2 (adjustment_with_nonnegative_outage sample_constants 30
                         no_reduction "GUY_CD" Ho))).
  cbn. lra.
Defined.

Lemma negative_outage_extends_life_witness :
  triple_adjustment
    (DLife_STEEL sample_constants 30 (with_outage corrosive_ground (1 / 10))
       "FOUNDATION_CD")
  < triple_adjustment
      (DLife_STEEL sample_constants 30 (with_outage corrosive_ground (- (1 / 10)))
         "FOUNDATION_CD").
Proof.
  apply (negative_outage_extends_life sample_constants 30 corrosive_ground
           "FOUNDATION_CD" (1 / 10)).
  - discriminate.
  - discriminate.
  - cbn. lra.
  - cbn. lra.
  - cbn. lra.
  - lra.
Defined.

Section Materials.

Variable now_year : R.
Variable constants : nat -> string -> R.

(** X7.  For each of the eight themes, a WOOD structure gets the
    design-life adjustment of the STEEL structure with the same fields:
    the renaming of the theme changes the constants and the condition-code
    column, not the formula. *)
Theorem WOOD_adjustment_as_STEEL (a : asset) (f : factors) (entry : string) :
  In entry steel_pronto_themes ->
  design_life_adjustment
    (material_dependent_calculations now_year constants (with_material a "WOOD") f entry)
  = design_life_adjustment
      (material_dependent_calculations now_year constants (with_material a "STEEL") f
         entry).
Proof.
  intros Hin. unfold steel_pronto_themes in Hin. cbn [In] in Hin.
  repeat (destruct Hin as [<- | Hin]; [reflexivity |]).
  destruct Hin.
Qed.

(** X8.  A structure that is neither STEEL nor WOOD gets, for each of the
    eight themes, exactly the derived quantities of the STEEL structure
    with the same fields, except on the guy-wire theme; and there too when
    its wear/fatigue factor is 0 and its atmospheric factor is not
    negative. *)
Theorem other_material_agrees_with_STEEL (a : asset) (f : factors) (entry : string) :
  MATERIAL_FLAG a <> "STEEL" -> MATERIAL_FLAG a <> "WOOD" ->
  In entry steel_pronto_themes ->
  entry <> "GUY_CD"
  \/ (wear_fatigue_red_factor f = 0 /\ 0 <= atmospheric_corrosivity_red_factor f) ->
  material_dependent_calculations now_year constants a f entry
  = material_dependent_calculations now_year constants (with_material a "STEEL") f entry.
Proof.
  intros Hs Hw Hin Hcase. unfold material_dependent_calculations.
  cbn [MATERIAL_FLAG with_material INSTALLED_YEAR CD].
  destruct (String.eqb_spec (MATERIAL_FLAG a) "STEEL"); [contradiction |].
  destruct (String.eqb_spec (MATERIAL_FLAG a) "WOOD"); [contradiction |].
  change (String.eqb "STEEL" "STEEL") with true. cbv iota.
  destruct (String.eqb_spec entry "GUY_CD") as [-> | Hne].
  - destruct Hcase as [Hc | [Hw0 Ha]]; [contradiction |].
    rewrite DLife_OTHER_GUY_CD, DLife_STEEL_GUY_CD, Hw0.
    f_equal. unfold DLife_WoodSteel_AllOthers, DLife_WoodSteel_Guy.
    set (o := outage_density_red_factor f). set (at_ := atmospheric_corrosivity_red_factor f).
    assert (Hroot : sqrt (0 ^ 2 + at_ ^ 2) = at_).
    { replace (0 ^ 2 + at_ ^ 2) with (at_ * at_) by ring. apply sqrt_square, Ha. }
    destruct (Rlt_dec o 0).
    + rewrite Hroot. reflexivity.
    + replace (0 ^ 2 + at_ ^ 2 + o ^ 2) with (at_ ^ 2 + o ^ 2) by ring. reflexivity.
  - rewrite DLife_OTHER_as_STEEL; [reflexivity | exact Hne |].
    intros ->. cbn in Hin. repeat (destruct Hin as [Hin | Hin]; [discriminate Hin |]).
    exact Hin.
Qed.

(** The adjusted design life of a pass does not depend on the year of the
    run. *)
Lemma design_life_adjusted_of_any_year (now_year' : R) (a : asset) (f : factors)
  (entry : string) :
  design_life_adjusted (material_dependent_calculations now_year constants a f entry)
  = design_life_adjusted (material_dependent_calculations now_year' constants a f entry).
Proof.
  unfold material_dependent_calculations, DLife_STEEL, DLife_WOOD, DLife_OTHER.
  repeat match goal with
         | |- context [if String.eqb ?x ?s then _ else _] => destruct (String.eqb x s)
         end; reflexivity.
Qed.

End Materials.

(** X9.  For a pass whose adjusted design life is not zero, the cov is the
    cov at age zero ([constants] row 0) when the structure was installed
    in the year of the run, the cov at the design life (row 1) when its
    age is the adjusted design life, and between two runs it does not
    decrease with the age when row 0 is at most row 1. *)
Theorem cov_interpolates_in_age
  (now_year later_year : R) (constants : nat -> string -> R)
  (a : asset) (f : factors) (entry : string) :
  let d := material_dependent_calculations now_year constants a f entry in
  let d' := material_dependent_calculations later_year constants a f entry in
  design_life_adjusted d <> 0 ->
  (now_year = INSTALLED_YEAR a -> cov d = constants 0%nat (theme_of a entry))
  /\ (now_year - INSTALLED_YEAR a = design_life_adjusted d ->
      cov d = constants 1%nat (theme_of a entry))
  /\ (constants 0%nat (theme_of a entry) <= constants 1%nat (theme_of a entry) ->
      0 <= now_year - INSTALLED_YEAR a <= later_year - INSTALLED_YEAR a ->
      cov d <= cov d').
Proof.
  cbv zeta. intros Hlife.
  pose proof (material_dependent_cov constants now_year a f entry) as Hc.
  pose proof (material_dependent_cov constants later_year a f entry) as Hc'.
  cbv zeta in Hc, Hc'.
  rewrite <- (design_life_adjusted_of_any_year now_year constants later_year) in Hc'.
  set (L := design_life_adjusted
              (material_dependent_calculations now_year constants a f entry)) in *.
  assert (HL2 : 0 < L ^ 2).
  { destruct (Rtotal_order L 0) as [Hn | [Hz | Hp]]; [| contradiction |]; nra. }
  split; [| split].
  - intros Hnow. rewrite Hc.
    replace (now_year - INSTALLED_YEAR a) with 0 by lra.
    replace (0 ^ 2 / L ^ 2) with 0 by (field; exact Hlife). ring.
  - intros Hage. rewrite Hc, Hage.
    replace (L ^ 2 / L ^ 2) with 1 by (field; exact Hlife). ring.
  - intros Hcov [H0 Hle]. rewrite Hc, Hc'.
    apply Rplus_le_compat_l, Rmult_le_compat_l; [lra |].
    unfold Rdiv. apply Rmult_le_compat_r; [left; apply Rinv_0_lt_compat, HL2 |].
    apply pow_incr. lra.
Qed.

Lemma cov_interpolates_in_age_witness :
  cov (material_dependent_calculations 1990 sample_constants
         (asset_neutral "STEEL" 0 (- 2))
         (mk_factors (- - 2) (Rmin (0 / 5 * (1 / 10)) (1 / 10)) 0
            (IZR (Z.max 0 0) / 2 * (1 / 10)) (IZR (Z.max 0 0) / 2 * (1 / 10)))
         "CONDUCTOR_CD")
  = 1 / 8.
Proof.
  refine (proj1 (cov_interpolates_in_age 1990 2020 sample_constants
                   (asset_neutral "STEEL" 0 (- 2)) _ "CONDUCTOR_CD" _) eq_refl).
  rewrite (design_life_adjusted_of_any_year 1990 sample_constants 2020).
  destruct negative_design_life_pass as [_ [H _]]. rewrite H. lra.
Defined.

Lemma WOOD_adjustment_as_STEEL_witness :
  design_life_adjustment
    (material_dependent_calculations 2020 sample_constants
       (with_material asset_wood_structure_3 "WOOD") corrosive_ground "FOUNDATION_CD")
  = design_life_adjustment
      (material_dependent_calculations 2020 sample_constants
         (with_material asset_wood_structure_3 "STEEL") corrosive_ground "FOUNDATION_CD").
Proof.
  apply (WOOD_adjustment_as_STEEL 2020 sample_constants asset_wood_structure_3
           corrosive_ground "FOUNDATION_CD").
  unfold steel_pronto_themes. cbn [In]. right; right; left; reflexivity.
Defined.

Lemma other_material_agrees_with_STEEL_witness :
  material_dependent_calculations 2020 sample_constants (asset_neutral "OTHER" 0 0)
    corrosive_ground "GUY_CD"
  = material_dependent_calculations 2020 sample_constants
      (with_material (asset_neutral "OTHER" 0 0) "STEEL") corrosive_ground "GUY_CD".
Proof.
  apply (other_material_agrees_with_STEEL 2020 sample_constants
           (asset_neutral "OTHER" 0 0) corrosive_ground "GUY_CD").
  - discriminate.
  - discriminate.
  - unfold steel_pronto_themes. cbn [In]. right; left; reflexivity.
  - right. cbn. lra.
Defined.

(** ** From condition codes to a valid sweep *)

Lemma strength_ratio_of_code_positive (c : option R) :
  0 < strength_ratio_of_code c <-> code_below_7 c.
Proof.
  destruct c as [x |]; cbn [strength_ratio_of_code code_below_7]; [| split; [trivial | lra]].
  destruct (Req_dec_T x 0); [split; lra |].
  destruct (Req_dec_T x 2); split; lra.
Qed.

Section ValidSweep.

Variable now_year : R.
Variable constants : nat -> string -> R.
Variables mu_steel mu_wood : R.
Hypothesis mu_steel_pos : 0 < mu_steel.
Hypothesis mu_wood_pos : 0 < mu_wood.

Lemma mean_positive_iff (a : asset) (f : factors) (fam : family) :
  In fam families ->
  (0 < mean_of fam (structure_capacity now_year constants mu_steel mu_wood a f)
   <-> code_below_7 (CD a (theme_of a (theme fam)))).
Proof.
  intros Hin. unfold structure_capacity.
  rewrite (mean_of_family mu_steel mu_wood (MATERIAL_FLAG a)
             (material_dependent_calculations now_year constants a f) fam Hin).
  rewrite strength_ratio_of_pass, design_ratio_of_pass.
  rewrite <- strength_ratio_of_code_positive.
  assert (Hmu : 0 < nominal_strength mu_steel mu_wood (MATERIAL_FLAG a) fam).
  { unfold nominal_strength. destruct (always_steel fam); [assumption |].
    destruct (String.eqb (MATERIAL_FLAG a) "STEEL"); assumption. }
  split; intros H; nra.
Qed.

(** The eight means of a structure against its eight condition codes. *)
Lemma valid_components_iff_codes (a : asset) (f : factors) :
  valid_components
    (components_of (structure_capacity now_year constants mu_steel mu_wood a f))
  <-> Forall (fun fam => code_below_7 (CD a (theme_of a (theme fam)))) families.
Proof.
  unfold valid_components, components_of, families.
  repeat rewrite Forall_cons_iff. cbn [fst theme].
  assert (H : forall fam,
             In fam families ->
             0 < mean_of fam (structure_capacity now_year constants mu_steel mu_wood a f)
             <-> code_below_7 (CD a (theme_of a (theme fam))))
    by (intros fam Hin; apply mean_positive_iff, Hin).
  unfold families in H at 1. cbn [In] in H.
  pose proof (H (mk_family "ANCHOR_CD" mean_ANCHOR stddev_ANCHOR true)
                ltac:(repeat (first [left; reflexivity | right]))) as H1.
  pose proof (H (mk_family "GUY_CD" mean_GUY stddev_GUY true)
                ltac:(repeat (first [left; reflexivity | right]))) as H2.
  pose proof (H (mk_family "FOUNDATION_CD" mean_FOUNDATION stddev_FOUNDATION false)
                ltac:(repeat (first [left; reflexivity | right]))) as H3.
  pose proof (H (mk_family "STUB_SPLICE_CD" mean_STUB_SPLICE stddev_STUB_SPLICE false)
                ltac:(repeat (first [left; reflexivity | right]))) as H4.
  pose proof (H (mk_family "STRUCT_ATTACH_CD" mean_STRUCT_ATTACH stddev_STRUCT_ATTACH false)
                ltac:(repeat (first [left; reflexivity | right]))) as H5.
  pose proof (H (mk_family "CONDUCTOR_CD" mean_CONDUCTOR stddev_CONDUCTOR true)
                ltac:(repeat (first [left; reflexivity | right]))) as H6.
  pose proof (H (mk_family "OGW_CD" mean_OGW stddev_OGW true)
                ltac:(repeat (first [left; reflexivity | right]))) as H7.
  pose proof (H (mk_family "HARDWARE_INSUL_CD" mean_HI stddev_HI true)
                ltac:(repeat (first [left; reflexivity | right]))) as H8.
  cbn [mean_of theme] in H1, H2, H3, H4, H5, H6, H7, H8.
  rewrite H1, H2, H3, H4, H5, H6, H7, H8.
  split; intros (?&?&?&?&?&?&?&?&_); repeat (split; [assumption |]); constructor.
Qed.

(** X10.  With positive nominal strengths, the eight means that a
    structure hands to the sweep are all positive, which is what the sweep
    needs of the shape of [lognorm.cdf], exactly when every condition code
    the structure reads is missing or below 7. *)
Theorem sweep_inputs_valid_iff (a : asset) (f : factors) :
  valid_components
    (components_of (structure_capacity now_year constants mu_steel mu_wood a f))
  <-> Forall (fun fam => code_below_7 (CD a (theme_of a (theme fam)))) families.
Proof.
  split; intros H.
  - apply (proj1 (valid_components_iff_codes a f)), H.
  - apply (proj2 (valid_components_iff_codes a f)), H.
Qed.

End ValidSweep.

Lemma neutral_codes_below_7 (flag : string) (wear outage_mod : R) :
  Forall (fun fam => code_below_7 (CD (asset_neutral flag wear outage_mod)
                                     (theme_of (asset_neutral flag wear outage_mod)
                                        (theme fam))))
    families.
Proof. apply Forall_forall. intros fam _. exact I. Qed.

Lemma sweep_inputs_valid_iff_witness :
  valid_components
    (components_of
       (structure_capacity 2020 sample_constants 100 80 (asset_neutral "STEEL" 0 0)
          no_reduction)).
Proof.
  assert (H100 : 0 < 100) by lra.
  assert (H80 : 0 < 80) by lra.
  exact (proj2 (sweep_inputs_valid_iff 2020 sample_constants 100 80 H100 H80
                  (asset_neutral "STEEL" 0 0) no_reduction)
           (neutral_codes_below_7 "STEEL" 0 0)).
Defined.

(** ** The blend between its two terms *)

Lemma product_below_complement (m : R) (F : list R) :
  Forall (fun p => 0 <= p <= 1) F -> In m F ->
  fold_right Rmult 1 (map (fun p => 1 - p) F) <= 1 - m.
Proof.
  induction 1 as [| x xs Hx Hxs IH]; intros Hin; [destruct Hin |].
  cbn [map fold_right].
  assert (H2 : Forall2 (fun p q => 0 <= p <= q /\ q <= 1) xs xs).
  { apply Forall2_diag. eapply Forall_impl; [| exact Hxs]. cbv beta. intros p Hp. lra. }
  destruct (product_of_complements xs xs H2) as [[H0 _] H1].
  destruct Hin as [-> | Hin].
  - nra.
  - specialize (IH Hin). nra.
Qed.

Lemma max_term_below_independence_term (F : list R) :
  Forall (fun p => 0 <= p <= 1) F -> F <> [] ->
  max_term F <= independence_term F.
Proof.
  intros HF Hne. destruct F as [| x xs]; [contradiction |].
  destruct (max_term_is_max x xs) as [Hin _].
  unfold independence_term.
  pose proof (product_below_complement _ _ HF Hin). lra.
Qed.

Lemma independence_term_zero_iff (F : list R) :
  Forall (fun p => 0 <= p <= 1) F ->
  (independence_term F = 0 <-> Forall (fun p => p = 0) F).
Proof.
  unfold independence_term.
  induction 1 as [| x xs Hx Hxs IH]; cbn [map fold_right].
  - split; [constructor | lra].
  - assert (H2 : Forall2 (fun p q => 0 <= p <= q /\ q <= 1) xs xs).
    { apply Forall2_diag. eapply Forall_impl; [| exact Hxs]. cbv beta. intros p Hp. lra. }
    destruct (product_of_complements xs xs H2) as [[H0 _] H1].
    split.
    + intros H.
      assert (Hx0 : x = 0) by nra. subst x.
      constructor; [reflexivity |]. apply IH. lra.
    + intros Hall. inversion Hall as [| y ys Hy Hys]; subst.
      apply IH in Hys. lra.
Qed.

Section BlendBetweenTerms.

Variable lognorm_cdf : R -> R -> R -> R.
Hypothesis cdf_range :
  forall x s loc : R, 0 < s -> 0 <= lognorm_cdf x s loc <= 1.

(** X11.  For eight components with positive means, the probability of
    failure lies between the largest of the eight failure probabilities
    and their independence term; so it is at least the failure probability
    of each component. *)
Theorem probability_of_failure_between_terms
  (wspeed mA sA mG sG mF sF mSS sSS mSA sSA mC sC mO sO mH sH : R) :
  valid_components
    [(mA, sA); (mG, sG); (mF, sF); (mSS, sSS); (mSA, sSA); (mC, sC); (mO, sO); (mH, sH)] ->
  let F := component_cdfs lognorm_cdf wspeed
             [(mA, sA); (mG, sG); (mF, sF); (mSS, sSS); (mSA, sSA); (mC, sC); (mO, sO);
              (mH, sH)] in
  let p := ComputeProbabilityFailureLogNorm lognorm_cdf wspeed
             mA sA mG sG mF sF mSS sSS mSA sSA mC sC mO sO mH sH in
  max_term F <= p <= independence_term F
  /\ Forall (fun q => q <= p) F.
Proof.
  intros Hv. cbv zeta. rewrite ComputeProbabilityFailureLogNorm_blended.
  pose proof (component_cdfs_range lognorm_cdf cdf_range wspeed _ Hv) as HF.
  set (F := component_cdfs lognorm_cdf wspeed _) in *.
  assert (Hne : F <> []) by (unfold F, component_cdfs; cbn [map]; discriminate).
  pose proof (max_term_below_independence_term F HF Hne) as Hle.
  unfold blended. split; [lra |].
  assert (Hmax : Forall (fun q => q <= max_term F) F).
  { unfold F, component_cdfs. cbn [map]. apply max_term_is_max. }
  eapply Forall_impl; [| exact Hmax]. cbv beta. intros q Hq. lra.
Qed.

(** X12.  For eight components with positive means, the probability of
    failure is 0 exactly when no component can fail at that wind speed,
    and it is 1 exactly when some component fails for certain. *)
Theorem probability_of_failure_extremes
  (wspeed mA sA mG sG mF sF mSS sSS mSA sSA mC sC mO sO mH sH : R) :
  valid_components
    [(mA, sA); (mG, sG); (mF, sF); (mSS, sSS); (mSA, sSA); (mC, sC); (mO, sO); (mH, sH)] ->
  let F := component_cdfs lognorm_cdf wspeed
             [(mA, sA); (mG, sG); (mF, sF); (mSS, sSS); (mSA, sSA); (mC, sC); (mO, sO);
              (mH, sH)] in
  let p := ComputeProbabilityFailureLogNorm lognorm_cdf wspeed
             mA sA mG sG mF sF mSS sSS mSA sSA mC sC mO sO mH sH in
  (p = 0 <-> Forall (fun q => q = 0) F)
  /\ (p = 1 <-> In 1 F).
Proof.
  intros Hv. cbv zeta. rewrite ComputeProbabilityFailureLogNorm_blended.
  pose proof (component_cdfs_range lognorm_cdf cdf_range wspeed _ Hv) as HF.
  set (F := component_cdfs lognorm_cdf wspeed _) in *.
  assert (Hne : F <> []) by (unfold F, component_cdfs; cbn [map]; discriminate).
  pose proof (max_term_below_independence_term F HF Hne) as Hle.
  pose proof (independence_term_bounds F HF) as HI.
  pose proof (max_term_bounds F HF) as HM.
  pose proof (independence_term_zero_iff F HF) as Hzero.
  assert (Hmax : is_max (max_term F) F).
  { unfold F, component_cdfs. cbn [map]. apply max_term_is_max. }
  destruct Hmax as [Hin Hall].
  unfold blended. split; split.
  - intros Hp. apply Hzero. lra.
  - intros H0. apply Hzero in H0. lra.
  - intros Hp. assert (Hm1 : max_term F = 1) by lra. rewrite <- Hm1. exact Hin.
  - intros H1. rewrite Forall_forall in Hall. specialize (Hall 1 H1). lra.
Qed.

End BlendBetweenTerms.

Lemma probability_of_failure_between_terms_witness :
  loglogistic_cdf 100 100 10
  <= ComputeProbabilityFailureLogNorm loglogistic_cdf 100
       100 10 100 10 100 10 100 10 100 10 100 10 100 10 100 10.
Proof.
  exact (Forall_inv
           (proj2 (probability_of_failure_between_terms loglogistic_cdf
                     loglogistic_cdf_range
                     100 100 10 100 10 100 10 100 10 100 10 100 10 100 10 100 10
                     valid_identical_components))).
Defined.

Lemma loglogistic_cdf_below_loc (x s loc : R) :
  x <= loc -> loglogistic_cdf x s loc = 0.
Proof.
  intros Hx. unfold loglogistic_cdf. destruct (Rle_dec (x - loc) 0); [reflexivity | lra].
Qed.

(** At wind speed 0 no component of the documented scenario can fail under
    the stand-in distribution function. *)
Lemma probability_of_failure_extremes_witness :
  ComputeProbabilityFailureLogNorm loglogistic_cdf 0
    100 10 100 10 100 10 100 10 100 10 100 10 100 10 100 10 = 0.
Proof.
  apply (proj2 (proj1 (probability_of_failure_extremes loglogistic_cdf
                         loglogistic_cdf_range
                         0 100 10 100 10 100 10 100 10 100 10 100 10 100 10 100 10
                         valid_identical_components))).
  unfold component_cdfs. cbn [map fst snd].
  repeat (apply Forall_cons; [apply loglogistic_cdf_below_loc; lra |]).
  apply Forall_nil.
Defined.

(** ** The order of the components *)

Lemma independence_term_permutation (F1 F2 : list R) :
  Permutation F1 F2 -> independence_term F1 = independence_term F2.
Proof.
  unfold independence_term. intros H. f_equal.
  induction H as [| x l1 l2 _ IH | x y l | l1 l2 l3 _ IH1 _ IH2]; cbn [map fold_right].
  - reflexivity.
  - rewrite IH. reflexivity.
  - ring.
  - rewrite IH1. exact IH2.
Qed.

Lemma max_term_permutation (F1 F2 : list R) :
  Permutation F1 F2 -> max_term F1 = max_term F2.
Proof.
  intros H. destruct F1 as [| x xs].
  - apply Permutation_nil in H. subst. reflexivity.
  - destruct F2 as [| y ys]; [apply Permutation_sym, Permutation_nil in H; discriminate |].
    apply (is_max_unique _ _ (y :: ys)); [| apply max_term_is_max].
    destruct (max_term_is_max x xs) as [Hin Hall]. split.
    + apply (Permutation_in _ H), Hin.
    + apply (Permutation_Forall H), Hall.
Qed.

(** X13.  The probability of failure does not depend on the order in
    which the eight components are passed. *)
Theorem probability_of_failure_order_independent
  (lognorm_cdf : R -> R -> R -> R) (wspeed : R)
  (m1 s1 m2 s2 m3 s3 m4 s4 m5 s5 m6 s6 m7 s7 m8 s8 : R)
  (n1 t1 n2 t2 n3 t3 n4 t4 n5 t5 n6 t6 n7 t7 n8 t8 : R) :
  Permutation
    [(m1, s1); (m2, s2); (m3, s3); (m4, s4); (m5, s5); (m6, s6); (m7, s7); (m8, s8)]
    [(n1, t1); (n2, t2); (n3, t3); (n4, t4); (n5, t5); (n6, t6); (n7, t7); (n8, t8)] ->
  ComputeProbabilityFailureLogNorm lognorm_cdf wspeed
    m1 s1 m2 s2 m3 s3 m4 s4 m5 s5 m6 s6 m7 s7 m8 s8
  = ComputeProbabilityFailureLogNorm lognorm_cdf wspeed
      n1 t1 n2 t2 n3 t3 n4 t4 n5 t5 n6 t6 n7 t7 n8 t8.
Proof.
  intros Hperm. rewrite !ComputeProbabilityFailureLogNorm_blended.
  unfold blended.
  assert (HF : Permutation
                 (component_cdfs lognorm_cdf wspeed
                    [(m1, s1); (m2, s2); (m3, s3); (m4, s4); (m5, s5); (m6, s6); (m7, s7);
                     (m8, s8)])
                 (component_cdfs lognorm_cdf wspeed
                    [(n1, t1); (n2, t2); (n3, t3); (n4, t4); (n5, t5); (n6, t6); (n7, t7);
                     (n8, t8)]))
    by (unfold component_cdfs; apply Permutation_map, Hperm).
  rewrite (independence_term_permutation _ _ HF), (max_term_permutation _ _ HF).
  reflexivity.
Qed.

(** Anchor and guy wire exchanged. *)
Lemma probability_of_failure_order_independent_witness :
  ComputeProbabilityFailureLogNorm loglogistic_cdf 100
    120 10 90 20 100 10 100 10 100 10 100 10 100 10 100 10
  = ComputeProbabilityFailureLogNorm loglogistic_cdf 100
      90 20 120 10 100 10 100 10 100 10 100 10 100 10 100 10.
Proof.
  apply probability_of_failure_order_independent. apply perm_swap.
Defined.

(** ** The sweep of a structure, end to end *)

(** The adjusted design life of the STEEL dispatch is the design life of
    the theme times the adjustment. *)
Lemma DLife_STEEL_adjusted (constants : nat -> string -> R) (AGE_YEARS : R)
  (f : factors) (entry : string) :
  triple_adjusted (DLife_STEEL constants AGE_YEARS f entry)
  = constants 2%nat entry * triple_adjustment (DLife_STEEL constants AGE_YEARS f entry).
Proof.
  unfold DLife_STEEL.
  repeat match goal with
         | |- context [if ?b then _ else _] => destruct b
         end; reflexivity.
Qed.

(** Without any reduction the adjustment is 1, for every theme. *)
Lemma no_reduction_adjustment (constants : nat -> string -> R) (AGE_YEARS : R)
  (entry : string) :
  triple_adjustment (DLife_STEEL constants AGE_YEARS no_reduction entry) = 1.
Proof.
  rewrite DLife_STEEL_adjustment_one_root by (cbn; lra).
  replace (sum_of_squares (theme_factors no_reduction entry)
           + outage_density_red_factor no_reduction ^ 2) with 0.
  - rewrite sqrt_0. lra.
  - unfold theme_factors.
    repeat match goal with
           | |- context [if ?b then _ else _] => destruct b
           end; cbn; ring.
Qed.

(** A STEEL structure on neutral ground, without reduction, under the
    sample constants: the adjusted design life is 50 for every theme. *)
Lemma neutral_design_life_nonzero :
  Forall (fun fam =>
            design_life_adjusted
              (material_dependent_calculations 2020 sample_constants
                 (asset_neutral "STEEL" 0 0) no_reduction (theme fam)) <> 0)
    families.
Proof.
  apply Forall_forall. intros fam _.
  unfold material_dependent_calculations. cbn [MATERIAL_FLAG asset_neutral].
  change (String.eqb "STEEL" "STEEL") with true. cbv iota.
  unfold derived_of. cbn [design_life_adjusted].
  rewrite DLife_STEEL_adjusted, no_reduction_adjustment.
  unfold sample_constants. lra.
Qed.

Section SoundStructure.

Variable lognorm_cdf : R -> R -> R -> R.
Hypothesis cdf_range :
  forall x s loc : R, 0 < s -> 0 <= lognorm_cdf x s loc <= 1.
Hypothesis cdf_monotone :
  forall s loc x1 x2 : R, 0 < s -> x1 <= x2 -> lognorm_cdf x1 s loc <= lognorm_cdf x2 s loc.

Variable now_year : R.
Variable constants : nat -> string -> R.
Variables mu_steel mu_wood : R.
Hypothesis mu_steel_pos : 0 < mu_steel.
Hypothesis mu_wood_pos : 0 < mu_wood.

(** X14.  For a structure whose condition codes are all missing or below
    7 and whose adjusted design life is zero for no theme, with positive
    nominal strengths, the fragility curve has 121 steps, every probability
    on it lies between 0 and 1, and the probabilities do not decrease along
    the wind speeds.  (At a zero adjusted design life the cov of the source
    is an infinity or NaN, which the quotient of [R] does not show.) *)
Theorem fragility_curve_of_sound_structure (a : asset) (f : factors) :
  Forall (fun fam => code_below_7 (CD a (theme_of a (theme fam)))) families ->
  Forall (fun fam =>
            design_life_adjusted
              (material_dependent_calculations now_year constants a f (theme fam)) <> 0)
    families ->
  let curve :=
    fragility_curve lognorm_cdf
      (structure_capacity now_year constants mu_steel mu_wood a f) in
  List.length curve = 121%nat
  /\ (forall (i : nat) (p : R), In (i, p) curve -> 0 <= p <= 1)
  /\ (forall (i j : nat) (p q : R),
         In (i, p) curve -> In (j, q) curve -> (i <= j)%nat -> p <= q).
Proof.
  intros Hcodes _. cbv zeta.
  apply (valid_components_iff_codes now_year constants mu_steel mu_wood
           mu_steel_pos mu_wood_pos a f) in Hcodes.
  set (c := structure_capacity now_year constants mu_steel mu_wood a f) in *.
  split; [| split].
  - unfold fragility_curve. rewrite length_map, length_seq. reflexivity.
  - intros i p Hin. apply fragility_curve_steps in Hin. destruct Hin as [_ ->].
    rewrite p_fail_blended.
    apply blended_bounds, (component_cdfs_range lognorm_cdf cdf_range), Hcodes.
  - intros i j p q Hi Hj Hij.
    apply fragility_curve_steps in Hi, Hj. destruct Hi as [_ ->], Hj as [_ ->].
    apply (fragility_curve_nondecreasing lognorm_cdf cdf_range cdf_monotone);
      assumption.
Qed.

End SoundStructure.

Lemma fragility_curve_of_sound_structure_witness :
  let curve :=
    fragility_curve loglogistic_cdf
      (structure_capacity 2020 sample_constants 100 80 (asset_neutral "STEEL" 0 0)
         no_reduction) in
  List.length curve = 121%nat
  /\ (forall (i : nat) (p : R), In (i, p) curve -> 0 <= p <= 1)
  /\ (forall (i j : nat) (p q : R),
         In (i, p) curve -> In (j, q) curve -> (i <= j)%nat -> p <= q).
Proof.
  assert (H100 : 0 < 100) by lra.
  assert (H80 : 0 < 80) by lra.
  exact (fragility_curve_of_sound_structure loglogistic_cdf loglogistic_cdf_range
           loglogistic_cdf_monotone 2020 sample_constants 100 80 H100 H80
           (asset_neutral "STEEL" 0 0) no_reduction (neutral_codes_below_7 "STEEL" 0 0)
           neutral_design_life_nonzero).
Defined.

(** ** The labels of the sweep columns *)

Lemma string_length_append (s t : string) :
  String.length (s ++ t) = (String.length s + String.length t)%nat.
Proof. induction s as [| c s IH]; cbn; [reflexivity | rewrite IH; reflexivity]. Qed.

Lemma string_append_cancel_r (s1 s2 t : string) :
  (s1 ++ t = s2 ++ t)%string -> s1 = s2.
Proof.
  revert s2. induction s1 as [| c s1 IH]; intros [| d s2] H; cbn in H.
  - reflexivity.
  - apply (f_equal String.length) in H. cbn in H. rewrite string_length_append in H. lia.
  - apply (f_equal String.length) in H. cbn in H. rewrite string_length_append in H. lia.
  - injection H as -> H. f_equal. apply IH, H.
Qed.

Lemma str_injective (i j : nat) : str i = str j -> i = j.
Proof.
  unfold str. intros H. apply DecimalNat.Unsigned.to_uint_inj.
  apply (f_equal DecimalString.NilEmpty.uint_of_string) in H.
  rewrite !DecimalString.NilEmpty.usu in H. injection H as H. exact H.
Qed.

Lemma col_label_injective (i j : nat) : col_label i = col_label j -> i = j.
Proof.
  unfold col_label. cbn [append]. intros H. injection H as H.
  apply str_injective, (string_append_cancel_r _ _ "_mph"), H.
Qed.

(** X15.  Two sweep steps get the same column label only if they are the
    same step: the 121 labels of the sweep are pairwise distinct, from
    [_0_mph] to [_120_mph]. *)
Theorem sweep_column_labels :
  (forall i j : nat, col_label i = col_label j <-> i = j)
  /\ NoDup (map col_label (seq 0 121))
  /\ col_label 0 = "_0_mph"
  /\ col_label 120 = "_120_mph".
Proof.
  split; [| split; [| split; reflexivity]].
  - intros i j. split; [apply col_label_injective | intros ->; reflexivity].
  - apply Finite.Injective_map_NoDup; [| apply seq_NoDup].
    intros i j. apply col_label_injective.
Qed.

(** ** The cov expression on floats, again *)

Module Float64Sign.

Import PrimFloat SpecFloat FloatOps FloatAxioms.

Lemma square_of_opposite (x : float) : (- x * - x = x * x)%float.
Proof.
  apply Prim2SF_inj. rewrite !mul_spec, opp_spec.
  destruct (Prim2SF x) as [s | s | | s m e]; cbn [SFopp]; unfold SF64mul, SFmul;
    try reflexivity; destruct s; reflexivity.
Qed.

(** X16.  On binary64 floats the cov expression of the design-life
    functions returns the very same float for an adjusted design life and
    for its opposite: the sign of the adjusted design life is lost in the
    square. *)
Theorem cov_formula_ignores_sign (cov_0 cov_D AGE_YEARS design_life_adjusted : float) :
  Float64.cov_formula cov_0 cov_D AGE_YEARS (- design_life_adjusted)%float
  = Float64.cov_formula cov_0 cov_D AGE_YEARS design_life_adjusted.
Proof.
  unfold Float64.cov_formula. rewrite square_of_opposite. reflexivity.
Qed.

End Float64Sign.

(** ** The probability of failure outside the domain of the shape *)

Module Float64SweepFacts.

Import PrimFloat SpecFloat FloatOps FloatAxioms.
Local Open Scope float_scope.

Lemma sub_nan_r (x : float) : x - nan = nan.
Proof.
  apply Prim2SF_inj. rewrite sub_spec. change (Prim2SF nan) with S754_nan.
  destruct (Prim2SF x); reflexivity.
Qed.

Lemma mul_nan_l (y : float) : nan * y = nan.
Proof.
  apply Prim2SF_inj. rewrite mul_spec. change (Prim2SF nan) with S754_nan.
  reflexivity.
Qed.

Lemma mul_nan_r (x : float) : x * nan = nan.
Proof.
  apply Prim2SF_inj. rewrite mul_spec. change (Prim2SF nan) with S754_nan.
  destruct (Prim2SF x); reflexivity.
Qed.

Lemma add_nan_l (y : float) : nan + y = nan.
Proof.
  apply Prim2SF_inj. rewrite add_spec. change (Prim2SF nan) with S754_nan.
  reflexivity.
Qed.

Lemma div_nan_l (y : float) : nan / y = nan.
Proof.
  apply Prim2SF_inj. rewrite div_spec. change (Prim2SF nan) with S754_nan.
  reflexivity.
Qed.

(** A NaN anywhere in a running product makes the product NaN. *)
Lemma fold_left_mul_nan (l : list float) :
  forall a, a = nan \/ In nan l -> fold_left mul l a = nan.
Proof.
  induction l as [| x xs IH]; intros a [Ha | Hin]; cbn [fold_left].
  - exact Ha.
  - destruct Hin.
  - apply IH. left. rewrite Ha. apply mul_nan_l.
  - destruct Hin as [-> | Hin].
    + apply IH. left. apply mul_nan_r.
    + apply IH. right. exact Hin.
Qed.

Lemma lognorm_cdf_outside_domain (cdf_on_domain : float -> float -> float -> float)
  (x s loc : float) :
  (0 <? s) = false -> Float64Sweep.lognorm_cdf cdf_on_domain x s loc = nan.
Proof. intros H. unfold Float64Sweep.lognorm_cdf. rewrite H. reflexivity. Qed.

(** X17.  On binary64 floats, a mean that is not positive among the eight
    makes the probability of failure NaN at every wind speed, whatever the
    other components and whatever [lognorm.cdf] is on its domain. *)
Theorem probability_of_failure_nan
  (cdf_on_domain : float -> float -> float -> float)
  (wspeed mA sA mG sG mF sF mSS sSS mSA sSA mC sC mO sO mH sH : float) :
  Exists (fun ms => (0 <? fst ms) = false)
    [(mA, sA); (mG, sG); (mF, sF); (mSS, sSS); (mSA, sSA); (mC, sC); (mO, sO); (mH, sH)] ->
  Float64Sweep.ComputeProbabilityFailureLogNorm cdf_on_domain wspeed
    mA sA mG sG mF sF mSS sSS mSA sSA mC sC mO sO mH sH = nan.
Proof.
  intros Hex. unfold Float64Sweep.ComputeProbabilityFailureLogNorm. cbv zeta.
  set (cdf := Float64Sweep.lognorm_cdf cdf_on_domain).
  assert (Hin : In nan (map (fun ms => 1 - cdf wspeed (fst ms) (snd ms))
                          [(mA, sA); (mG, sG); (mF, sF); (mSS, sSS); (mSA, sSA); (mC, sC);
                           (mO, sO); (mH, sH)])).
  { apply Exists_exists in Hex. destruct Hex as [ms [Hms Hs]].
    apply in_map_iff. exists ms. split; [| exact Hms].
    unfold cdf. rewrite (lognorm_cdf_outside_domain _ _ _ _ Hs). apply sub_nan_r. }
  cbn [map fst snd] in Hin.
  change ((1 - cdf wspeed mA sA) * (1 - cdf wspeed mG sG) * (1 - cdf wspeed mF sF)
          * (1 - cdf wspeed mSS sSS) * (1 - cdf wspeed mSA sSA) * (1 - cdf wspeed mC sC)
          * (1 - cdf wspeed mO sO) * (1 - cdf wspeed mH sH))
    with (fold_left mul
            [1 - cdf wspeed mG sG; 1 - cdf wspeed mF sF; 1 - cdf wspeed mSS sSS;
             1 - cdf wspeed mSA sSA; 1 - cdf wspeed mC sC; 1 - cdf wspeed mO sO;
             1 - cdf wspeed mH sH]
            (1 - cdf wspeed mA sA)).
  rewrite fold_left_mul_nan.
  - rewrite sub_nan_r, add_nan_l, div_nan_l. reflexivity.
  - destruct Hin as [Hin | Hin]; [left; exact Hin | right; exact Hin].
Qed.

(** An anchor at condition code 7, at wind speed 10. *)
Lemma probability_of_failure_nan_witness :
  Float64Sweep.ComputeProbabilityFailureLogNorm Float64Sweep.unit_loglogistic 10
    0 0 100 10 100 10 100 10 100 10 100 10 100 10 100 10 = nan.
Proof.
  apply probability_of_failure_nan. apply Exists_cons_hd. reflexivity.
Defined.

(** C6 (counterexample).  The claim: for every fixed eight (mean, stddev)
    pairs and every [v1 < v2], [p_fail(v1) <= p_fail(v2)].  An anchor with
    condition code 7 has mean 0 and standard deviation 0; with the seven
    other components at mean 100 and standard deviation 10, the probability
    of failure is NaN at the wind speeds 10 and 20, and the comparison
    [p_fail(10) <= p_fail(20)] is false. *)
Lemma monotonicity_fails_at_code_7 :
  (10 <? 20) = true
  /\ Float64Sweep.ComputeProbabilityFailureLogNorm Float64Sweep.unit_loglogistic 10
       0 0 100 10 100 10 100 10 100 10 100 10 100 10 100 10 = nan
  /\ Float64Sweep.ComputeProbabilityFailureLogNorm Float64Sweep.unit_loglogistic 20
       0 0 100 10 100 10 100 10 100 10 100 10 100 10 100 10 = nan
  /\ (Float64Sweep.ComputeProbabilityFailureLogNorm Float64Sweep.unit_loglogistic 10
        0 0 100 10 100 10 100 10 100 10 100 10 100 10 100 10
      <=? Float64Sweep.ComputeProbabilityFailureLogNorm Float64Sweep.unit_loglogistic 20
            0 0 100 10 100 10 100 10 100 10 100 10 100 10 100 10) = false.
Proof. repeat split; vm_compute; reflexivity. Qed.

End Float64SweepFacts.
